(** * xpRegGenomeLib: bed tables, bigwig merging and region counting

    A shallow embedding of the three scripts of the repository

    - [scripts/RGTools/BedTable.py]   (module [BedTable] below),
    - [scripts/merge_multi_bw.py]     (module [MergeMultiBw]),
    - [scripts/count_bw_sig.py]       (module [CountBwSig]),

    together with the properties of them that the specification states.

    Python [int] is [Z]; Python [float] (and numpy [float64]) is the
    kernel's binary64 [float]; [str] is [string]; a raised exception is
    the left summand of [result]. *)

From Stdlib Require Import ZArith Floats Sorted Permutation.
From stdpp Require Import base option list strings pretty gmap.

Local Open Scope Z_scope.

(** ** Python values shared by the three scripts *)

Module Py.

(** The exception classes the scripts raise or let through. *)
Inductive exception : Type :=
| Exception (msg : string)            (* raise Exception("...") *)
| ValueError (msg : string)
| TypeError (msg : string)
| IndexError (msg : string)
| AttributeError (msg : string)
| RuntimeError (msg : string)
| UnboundLocalError (var : string)
| BedTableLoadException (msg : string).

Definition result (A : Type) : Type := exception + A.

Definition ret {A} (a : A) : result A := inr a.
Definition raise {A} (e : exception) : result A := inl e.

Definition bind {A B} (m : result A) (k : A → result B) : result B :=
  match m with
  | inl e => inl e
  | inr a => k a
  end.

#[global] Instance result_ret : MRet result := @ret.
#[global] Instance result_bind : MBind result :=
  fun A B k m => bind m k.

Definition raises {A} (m : result A) : Prop :=
  match m with inl _ => True | inr _ => False end.

(** [range(n)]: the integers [0, 1, ..., n-1], empty when [n <= 0]. *)
Definition range (n : Z) : list Z :=
  map Z.of_nat (seq 0 (Z.to_nat n)).

(** Python's [x != y] on floats is the negation of [x == y]. *)
Definition float_neb (x y : float) : bool := negb (PrimFloat.eqb x y).

End Py.

(** ** scripts/RGTools/BedTable.py *)

Module BedTable.
Import Py.

(** *** Data frames

    A cell of a column other than the three coordinate columns. *)
Inductive cell : Type :=
| CStr (s : string)
| CInt (z : Z)
| CFloat (f : float)
| CMissing.

(** A row of a bed table at its declared column types
    ([column_types]: [chrom] is [str], [start] and [end] are [int]);
    [rest] holds the columns after the third, in column order.  Every
    row has its three coordinates: a frame in which [__force_dtype] left
    a missing [chrom] (it replaces the text [None] by [nan] after the
    cast) is not represented. *)
Record row : Type := Row {
  chrom : string;
  start : Z;
  end_ : Z;
  rest : list cell;
}.

(** A [pd.DataFrame]: its rows in positional order, each with its index
    label. *)
Abbreviation data_frame := (list (Z * row)).

(** The [DataFrame] objects allocated so far; a Python reference to a
    frame is a position in this list.  Frames are the only objects the
    class mutates in place, and they are mutated through references. *)
Abbreviation frame_ref := nat.
Abbreviation heap := (list data_frame).

(** Computations that read and write frames and may raise. *)
Definition M (A : Type) : Type := heap → result (A * heap).

#[global] Instance M_ret : MRet M := fun A a σ => inr (a, σ).
#[global] Instance M_bind : MBind M := fun A B k m σ =>
  match m σ with
  | inl e => inl e
  | inr (a, σ') => k a σ'
  end.

Definition throw {A} (e : exception) : M A := fun _ => inl e.
Definition lift {A} (r : result A) : M A := fun σ =>
  match r with inl e => inl e | inr a => inr (a, σ) end.

(** A frame constructor ([pd.DataFrame(...)], [df.loc[...]],
    [df.copy()]) returns a new object. *)
Definition new_frame (df : data_frame) : M frame_ref := fun σ =>
  inr (length σ, σ ++ [df]).

Definition get_frame (r : frame_ref) : M data_frame := fun σ =>
  match σ !! r with
  | Some df => inr (df, σ)
  | None => inl (RuntimeError "dangling frame reference")
  end.

(** An [inplace=True] operation replaces the contents of the object. *)
Definition set_frame (r : frame_ref) (df : data_frame) : M unit := fun σ =>
  inr ((), <[r := df]> σ).

(** A fresh [RangeIndex]: labels [0, 1, ...] in positional order. *)
Definition range_index (rows : list row) : data_frame :=
  imap (fun i r => (Z.of_nat i, r)) rows.

(** [df.loc[mask]] for a boolean [Series] computed from [df] itself:
    the rows at which it is true, with their labels. *)
Definition loc_where (p : row → bool) (df : data_frame) : data_frame :=
  List.filter (fun lr => p lr.2) df.

(** The elements of [l] at the positions where [mask] is true. *)
Fixpoint select_mask {A} (l : list A) (mask : list bool) : list A :=
  match l, mask with
  | x :: l', b :: mask' =>
      if b then x :: select_mask l' mask' else select_mask l' mask'
  | _, _ => []
  end.

(** [df.loc[mask]] for a boolean [np.ndarray]: pandas raises
    [IndexError] when the lengths differ. *)
Definition loc_mask (df : data_frame) (mask : list bool)
    : result data_frame :=
  if bool_decide (length mask = length df)
  then ret (select_mask df mask)
  else raise (IndexError ("Boolean index has wrong length: "
                          +:+ pretty (length mask) +:+ " instead of "
                          +:+ pretty (length df))).

(** The key [sort_values(by=["chrom", "start", "end"])] orders by:
    [chrom] by code points, then [start], then [end]. *)
Definition key_leb (a b : row) : bool :=
  match String.compare (chrom a) (chrom b) with
  | Lt => true
  | Gt => false
  | Eq =>
      match Z.compare (start a) (start b) with
      | Lt => true
      | Gt => false
      | Eq => bool_decide (end_ a ≤ end_ b)
      end
  end.

Fixpoint insert_sorted (x : Z * row) (l : data_frame) : data_frame :=
  match l with
  | [] => [x]
  | y :: l' =>
      if key_leb x.2 y.2 then x :: y :: l' else y :: insert_sorted x l'
  end.

(** [df.sort_values(by=[...])]: pandas sorts on several columns with a
    stable sort; rows keep their labels. *)
Definition sort_values (df : data_frame) : data_frame :=
  foldr insert_sorted [] df.

(** *** The classes *)

Inductive dtype : Type := dt_str | dt_int | dt_float.

Inductive bed_class : Type :=
| BedTable3
| BedTable6
| BedTable6Plus
| BedTablePairEnd.

(** An instance: its class, the attributes [_extra_column_names] and
    [_extra_column_dtype] (set by [BedTable6Plus] only, empty
    otherwise) and the reference held by [_data_df]. *)
Record table : Type := Table {
  cls : bed_class;
  _extra_column_names : list string;
  _extra_column_dtype : list dtype;
  _data_df : frame_ref;
}.

Definition set_data_df (self : table) (r : frame_ref) : table :=
  Table (cls self) (_extra_column_names self) (_extra_column_dtype self) r.

(** The property [column_names], as each class overrides it. *)
Definition column_names (self : table) : list string :=
  match cls self with
  | BedTable3 => ["chrom"; "start"; "end"]
  | BedTable6 => ["chrom"; "start"; "end"; "name"; "score"; "strand"]
  | BedTable6Plus =>
      ["chrom"; "start"; "end"; "name"; "score"; "strand"]
        ++ _extra_column_names self
  | BedTablePairEnd =>
      ["chrom"; "start"; "end"; "chrom2"; "start2"; "end2"; "name";
       "score"; "strand"; "strand2"] ++ _extra_column_names self
  end.

(** The properties [extra_column_names] and [extra_column_dtype]. *)
Definition extra_column_names (self : table) : list string :=
  match cls self with
  | BedTable3 | BedTable6 => []
  | BedTable6Plus | BedTablePairEnd => _extra_column_names self
  end.

Definition extra_column_dtype (self : table) : list dtype :=
  match cls self with
  | BedTable3 | BedTable6 => []
  | BedTable6Plus | BedTablePairEnd => _extra_column_dtype self
  end.

(** The property [column_types]. *)
Definition column_types (self : table) : list (string * dtype) :=
  let bed3 := [("chrom", dt_str); ("start", dt_int); ("end", dt_int)] in
  let bed6 := bed3 ++ [("name", dt_str); ("score", dt_float);
                       ("strand", dt_str)] in
  match cls self with
  | BedTable3 => bed3
  | BedTable6 => bed6
  | BedTable6Plus =>
      bed6 ++ zip (_extra_column_names self) (_extra_column_dtype self)
  | BedTablePairEnd =>
      bed3 ++ [("chrom2", dt_str); ("start2", dt_int); ("end2", dt_int);
               ("name", dt_str); ("score", dt_float); ("strand", dt_str);
               ("strand2", dt_str)]
        ++ zip (extra_column_names self) (extra_column_dtype self)
  end.

(** [cls(extra_column_names=..., extra_column_dtype=...)]; [None] is an
    argument that is not passed.

    - [BedTable3.__init__] and [BedTable6.__init__] take both
      arguments with default [None] and build an empty frame.
    - [BedTable6Plus.__init__] has no default for [extra_column_names].
    - [BedTablePairEnd.__init__] calls [super().__init__()] first, which
      evaluates the property [column_names] and so reads
      [_extra_column_names] before it has been set. *)
Definition construct (c : bed_class)
    (names : option (list string)) (dtypes : option (list dtype))
    : M table :=
  match c with
  | BedTable3 | BedTable6 =>
      df ← new_frame [];
      mret (Table c [] [] df)
  | BedTable6Plus =>
      match names with
      | None =>
          throw (TypeError
            "__init__() missing 1 required positional argument: 'extra_column_names'")
      | Some ns =>
          let ds := match dtypes with
                    | None | Some [] => replicate (length ns) dt_str
                    | Some ds => ds
                    end in
          df ← new_frame [];
          mret (Table c ns ds df)
      end
  | BedTablePairEnd =>
      throw (AttributeError
        "'BedTablePairEnd' object has no attribute '_extra_column_names'")
  end.

(** [BedTable3._is_sorted]: the body of the loop at index [i], with
    [prev] the row at [i-1] and [cur] the row at [i]; [false] is an
    early [return False]. *)
Definition in_order (prev cur : row) : bool :=
  if String.ltb (chrom cur) (chrom prev) then false
  else if String.eqb (chrom cur) (chrom prev) then
    if bool_decide (start cur < start prev) then false
    else if bool_decide (start cur = start prev) then
      if bool_decide (end_ cur < end_ prev) then false else true
    else true
  else true.

(** The loop [for i in range(1, len(df))]. *)
Fixpoint is_sorted_from (prev : row) (rows : list row) : bool :=
  match rows with
  | [] => true
  | cur :: rows' =>
      if in_order prev cur then is_sorted_from cur rows' else false
  end.

Definition is_sorted_rows (rows : list row) : bool :=
  match rows with
  | [] => true
  | r :: rows' => is_sorted_from r rows'
  end.

(** [BedTable3._is_sorted] *)
Definition _is_sorted (self : table) : M bool :=
  df ← get_frame (_data_df self);
  mret (is_sorted_rows df.*2).

(** [BedTable3._sort]: both statements work in place. *)
Definition _sort (self : table) : M unit :=
  df ← get_frame (_data_df self);
  _ ← set_frame (_data_df self) (sort_values df);
  df ← get_frame (_data_df self);
  set_frame (_data_df self) (range_index df.*2).

(** [if not self._is_sorted(): self._sort()], the end of both load
    methods; the table is returned for the caller to go on with. *)
Definition sort_unless_sorted (self : table) : M table :=
  sorted ← _is_sorted self;
  if sorted : bool then mret self
  else _ ← _sort self; mret self.

Section LoadFromFile.
(** What [pd.read_csv] returns, before its columns are typed. *)
Context {raw_frame : Type}.
(** [pd.read_csv(ipath, sep="\t", names=names, na_values='.')] *)
Variable read_csv : string → list string → result raw_frame.
(** [__force_dtype] on a frame that was read from a file: the rows at
    the declared column types, or the exception of a failed
    [astype]. *)
Variable force_dtype :
  list (string * dtype) → raw_frame → result (list row).

(** [BedTable3.load_from_file(ipath)]; [read_csv] numbers the rows
    from 0. *)
Definition load_from_file (self : table) (ipath : string) : M table :=
  raw ← lift (match read_csv ipath (column_names self) with
              | inl (ValueError _) =>
                  raise (BedTableLoadException
                    "Error loading bed file: number of columns does not match.")
              | r => r
              end);
  rows ← lift (force_dtype (column_types self) raw);
  new ← new_frame (range_index rows);
  sort_unless_sorted (set_data_df self new).
End LoadFromFile.

(** What the argument of [apply_logical_filter] can be. *)
Inductive logical_array : Type :=
| NotNdarray                         (* a list, a Series, ... *)
| Ndarray (dt : dtype) (n : nat)     (* an array of another dtype *)
| BoolNdarray (mask : list bool).    (* dtype == bool *)

Section LoadFromDataframe.
(** [pd.DataFrame(df[[column_map[col] for col in names]].values,
    columns=names)] with the default [column_map], on the rows of [df]:
    the rows in the columns [names], without their labels, or the
    exception of the selection or of the constructor. *)
Variable frame_of_values : list string → list row → result (list row).
(** [__force_dtype] on the frame that [load_from_dataframe] has built:
    the rows as the casts and the two [replace] leave them, or the
    exception of a failed [astype].  What they make of a missing value
    and of the texts [.] and [None] is a matter of pandas and of its
    version. *)
Variable force_dtype : list (string * dtype) → list row → result (list row).

(** [BedTable3.load_from_dataframe(df)] with the default
    [column_map]. *)
Definition load_from_dataframe (self : table) (df : frame_ref)
    : M table :=
  src ← get_frame df;
  raw ← lift (match frame_of_values (column_names self) src.*2 with
              | inl (ValueError _) =>
                  raise (BedTableLoadException
                    "Error loading pd.DataFrame: number of columns does not match.")
              | r => r
              end);
  rows ← lift (force_dtype (column_types self) raw);
  new ← new_frame (range_index rows);
  sort_unless_sorted (set_data_df self new).

(** [BedTable3.apply_logical_filter(logical_array)] *)
Definition apply_logical_filter (self : table) (arr : logical_array)
    : M table :=
  match arr with
  | NotNdarray => throw (ValueError "logical_array must be a np.array")
  | Ndarray _ _ =>
      throw (ValueError "logical_array must be a boolean np.array")
  | BoolNdarray mask =>
      new_bed_table ← construct (cls self) None None;
      df ← get_frame (_data_df self);
      sel ← lift (loc_mask df mask);
      sel_ref ← new_frame sel;
      load_from_dataframe new_bed_table sel_ref
  end.

(** [BedTable3.region_subset(chrom, start, end)] *)
Definition region_subset (self : table) (chrom_ : string)
    (start_ end__ : Z) : M table :=
  df ← get_frame (_data_df self);
  s1 ← new_frame (loc_where (fun r => String.eqb (chrom r) chrom_) df);
  df1 ← get_frame s1;
  s2 ← new_frame (loc_where (fun r => bool_decide (start_ ≤ start r)) df1);
  df2 ← get_frame s2;
  s3 ← new_frame (loc_where (fun r => bool_decide (end_ r ≤ end__)) df2);
  new_bed_table ← construct (cls self)
                    (Some (extra_column_names self))
                    (Some (extra_column_dtype self));
  load_from_dataframe new_bed_table s3.
End LoadFromDataframe.

(** [BedTable3.to_dataframe]: a copy. *)
Definition to_dataframe (self : table) : M frame_ref :=
  df ← get_frame (_data_df self);
  new_frame df.

(** *** Attribute lookup

    The names each class body defines, and the names [__init__] sets on
    an instance. *)
Definition class_dict (c : bed_class) : list string :=
  match c with
  | BedTable3 =>
      ["__init__"; "column_names"; "column_types"; "extra_column_names";
       "extra_column_dtype"; "load_from_file"; "load_from_dataframe";
       "apply_logical_filter"; "region_subset"; "to_dataframe"; "write";
       "get_chrom_names"; "get_start_locs"; "get_end_locs";
       "get_region_by_index"; "iter_regions"; "_sort"; "_is_sorted";
       "_BedTable3__force_dtype"; "__len__"]
  | BedTable6 =>
      ["__init__"; "column_names"; "column_types"; "get_region_names";
       "get_region_scores"; "get_region_strands"]
  | BedTable6Plus =>
      ["__init__"; "column_names"; "column_types"; "extra_column_names";
       "extra_column_dtype"; "get_region_extra_column"]
  | BedTablePairEnd =>
      ["__init__"; "extra_column_names"; "extra_column_dtype";
       "column_names"; "column_types"; "get_other_region_chroms";
       "get_other_region_starts"; "get_other_region_ends";
       "get_pair_names"; "get_pair_scores"; "get_region_strands";
       "get_other_region_strands"; "get_extra_column";
       "search_pair_extra_column"]
  end.

Definition class_name (c : bed_class) : string :=
  match c with
  | BedTable3 => "BedTable3"
  | BedTable6 => "BedTable6"
  | BedTable6Plus => "BedTable6Plus"
  | BedTablePairEnd => "BedTablePairEnd"
  end.

(** The method resolution order, up to [object]. *)
Definition mro (c : bed_class) : list bed_class :=
  match c with
  | BedTable3 => [BedTable3]
  | BedTable6 => [BedTable6; BedTable3]
  | BedTable6Plus => [BedTable6Plus; BedTable6; BedTable3]
  | BedTablePairEnd => [BedTablePairEnd; BedTable3]
  end.

Definition instance_dict (c : bed_class) : list string :=
  (["_BedTable3__extra_column_names"; "_BedTable3__extra_column_dtype";
    "_data_df"]
   ++ match c with
      | BedTable3 | BedTable6 => []
      | BedTable6Plus | BedTablePairEnd =>
          ["_extra_column_names"; "_extra_column_dtype"]
      end).

(** [hasattr(obj, name)] for an instance [obj] of class [c]: a name of
    the instance, of a class of the resolution order, or of [object]
    (no name of [object] is looked up by the scripts other than through
    [__class__]). *)
Definition has_attribute (c : bed_class) (name : string) : bool :=
  bool_decide (name ∈ instance_dict c)
  || existsb (fun k => bool_decide (name ∈ class_dict k)) (mro c)
  || bool_decide (name = "__class__").

End BedTable.

(** ** scripts/merge_multi_bw.py *)

Module MergeMultiBw.
Import Py.

(** A bigwig interval [(start, end, value)] as pyBigWig's [intervals]
    returns it. *)
Definition interval : Type := Z * Z * float.

Definition iv_start (iv : interval) : Z := iv.1.1.
Definition iv_end (iv : interval) : Z := iv.1.2.
Definition iv_value (iv : interval) : float := iv.2.

(** The local variables of [combine_bw_intervals] that live across
    iterations of its [for] loop. *)
Record sweep_state : Type := SweepState {
  rep1_pointer : nat;
  rep2_pointer : nat;
  temp_signal_stack : list float;
  merged_interval_list : list interval;
}.

(** [if p < len(rep) and i >= rep[p][1]: p += 1] *)
Definition advance_pointer (rep : list interval) (p : nat) (i : Z) : nat :=
  match rep !! p with
  | Some iv => if bool_decide (iv_end iv ≤ i) then S p else p
  | None => p
  end.

(** [if p < len(rep) and i >= rep[p][0]: signal += rep[p][2]] *)
Definition add_signal (rep : list interval) (p : nat) (i : Z)
    (signal : float) : float :=
  match rep !! p with
  | Some iv => if bool_decide (iv_start iv ≤ i)
               then (signal + iv_value iv)%float else signal
  | None => signal
  end.

(** [temp_signal_stack[-1]]; the index is only evaluated on a stack
    that the preceding tests have found non-empty. *)
Definition stack_top (stack : list float) : float :=
  List.last stack 0%float.

(** [(i - len(temp_signal_stack), i, temp_signal_stack[-1])] *)
Definition close_run (stack : list float) (i : Z) : interval :=
  (i - Z.of_nat (length stack), i, stack_top stack).

(** One iteration of the loop body, at position [i]. *)
Definition sweep_step (rep1 rep2 : list interval)
    (st : sweep_state) (i : Z) : sweep_state :=
  let p1 := advance_pointer rep1 (rep1_pointer st) i in
  let p2 := advance_pointer rep2 (rep2_pointer st) i in
  let signal := add_signal rep2 p2 i (add_signal rep1 p1 i 0%float) in
  let stack := temp_signal_stack st in
  let merged := merged_interval_list st in
  if float_neb signal 0 && bool_decide (length stack = 0%nat) then
    SweepState p1 p2 (stack ++ [signal]) merged
  else if float_neb signal 0 && PrimFloat.eqb (stack_top stack) signal then
    SweepState p1 p2 (stack ++ [signal]) merged
  else if float_neb signal 0 && float_neb (stack_top stack) signal then
    SweepState p1 p2 [signal] (merged ++ [close_run stack i])
  else if negb (bool_decide (length stack = 0%nat)) then
    SweepState p1 p2 [] (merged ++ [close_run stack i])
  else
    SweepState p1 p2 stack merged.

Definition sweep_init : sweep_state := SweepState 0 0 [] [].

(** The state after the loop has run over [positions]. *)
Definition sweep (rep1 rep2 : list interval) (positions : list Z)
    (st : sweep_state) : sweep_state :=
  fold_left (sweep_step rep1 rep2) positions st.

(** [MergeMultiBw.combine_bw_intervals(rep1, rep2, chrom_length)] *)
Definition combine_bw_intervals (rep1 rep2 : list interval)
    (chrom_length : Z) : list interval :=
  merged_interval_list (sweep rep1 rep2 (range chrom_length) sweep_init).

End MergeMultiBw.

(** ** scripts/count_bw_sig.py *)

Module CountBwSig.
Import Py BedTable.

(** *** Region files *)

(** [BedTable6Gene()] *)
Definition BedTable6Gene : M table :=
  construct BedTable6Plus (Some ["gene_name"]) (Some [dt_str]).

Definition REGION_FILE_SUFFIX2CLASS_DICT : list (string * M table) :=
  [("bed3", construct BedTable3 None None);
   ("bed6", construct BedTable6 None None);
   ("bed6gene", BedTable6Gene)].

Fixpoint dict_get {V} (d : list (string * V)) (k : string) : option V :=
  match d with
  | [] => None
  | (k', v) :: d' => if String.eqb k k' then Some v else dict_get d' k
  end.

(** [obj.name] on a bed table: [AttributeError] unless the instance or
    a class of its resolution order has the name. *)
Definition getattr (obj : table) (name : string) : M unit :=
  if has_attribute (cls obj) name then mret ()
  else throw (AttributeError
                ("'" +:+ class_name (cls obj)
                 +:+ "' object has no attribute '" +:+ name +:+ "'")).

(** [chrom + "_" + str(start) + "_" + str(end)] *)
Definition region_id (r : row) : string :=
  chrom r +:+ "_" +:+ pretty (start r) +:+ "_" +:+ pretty (end_ r).

Section ParseRegionInput.
Context {raw_frame : Type}.
Variable read_csv : string → list string → result raw_frame.
Variable force_dtype :
  list (string * dtype) → raw_frame → result (list row).
(** [region_df.fillna(".", inplace=True)]: the frame as the fill leaves
    it, or the exception pandas raises where it refuses the text for a
    column (a version of pandas that does not put a text into a column
    of floats raises [TypeError] on a missing score). *)
Variable fillna : data_frame → result data_frame.

(** [parse_region_input(region_file, file_type)]; the frame it
    returns is indexed by the region identifiers.  The call
    [new_region_bed_table.load_from_BedTable3(region_bed_table)]
    starts with the lookup of the method; [BedTable.py] has no body
    for it that could run after the lookup. *)
Definition parse_region_input (region_file file_type : string)
    : M (list (string * row)) :=
  match dict_get REGION_FILE_SUFFIX2CLASS_DICT file_type with
  | None => throw (Exception "Unsupported region file type")
  | Some class_ =>
      region_bed_table ← class_;
      region_bed_table ←
        load_from_file read_csv force_dtype region_bed_table region_file;
      region_bed_table ←
        (if String.eqb file_type "bed3" then
           new_region_bed_table ← construct BedTable6 None None;
           _ ← getattr new_region_bed_table "load_from_BedTable3";
           mret new_region_bed_table
         else mret region_bed_table);
      region_df ← to_dataframe region_bed_table;
      df ← get_frame region_df;
      filled ← lift (fillna df);
      _ ← set_frame region_df filled;
      df ← get_frame region_df;
      mret ((fun lr => (region_id lr.2, lr.2)) <$> df)
  end.
End ParseRegionInput.

(** *** Counting *)

(** An open bigwig file: what [values(chrom, start, end)] returns, one
    float per base, or the exception pyBigWig raises. *)
Record bigwig : Type := BigWig {
  values : string → Z → Z → result (list float);
}.

(** The two readers [count_single_region] is given. *)
Inductive reader : Type := bw_pl_reader | bw_mn_reader.

(** A call of [values] that was made. *)
Record query : Type := Query {
  q_reader : reader;
  q_chrom : string;
  q_start : Z;
  q_end : Z;
}.

(** Computations that query readers and may raise: the queries made,
    in order, and the outcome. *)
Definition Q (A : Type) : Type := list query * result A.

#[global] Instance Q_ret : MRet Q := fun A a => ([], inr a).
#[global] Instance Q_bind : MBind Q := fun A B k m =>
  match m with
  | (log, inl e) => (log, inl e)
  | (log, inr a) => let '(log', r) := k a in (log ++ log', r)
  end.

Definition fail {A} (e : exception) : Q A := ([], inl e).

Definition call_values (which : reader) (bw : bigwig)
    (chrom : string) (start end_ : Z) : Q (list float) :=
  ([Query which chrom start end_], values bw chrom start end_).

(** An [int] where a [float64] is expected, rounded to nearest even. *)
Definition float_of_Z (z : Z) : float :=
  SF2Prim (binary_normalize prec emax z 0 false).

Section Numpy.
(** [np.nan_to_num] and [ndarray.sum] on an array of [float64]. *)
Variable np_nan_to_num : list float → list float.
Variable np_sum : list float → float.

(** [count_single_region(bw_pl, bw_mn, chrom, start, end, strand,
    single_bw, output_type, l_pad, r_pad, min_len_after_padding,
    method_resolving_invalid_padding)] *)
Definition count_single_region (bw_pl bw_mn : bigwig) (chrom : string)
    (start end_ : Z) (strand : string) (single_bw : bool)
    (output_type : string) (l_pad r_pad min_len_after_padding : Z)
    (method_resolving_invalid_padding : string) : Q float :=
  bounds ←
    (if bool_decide (- l_pad - r_pad + min_len_after_padding
                     > end_ - start) then
       if String.eqb method_resolving_invalid_padding "fallback" then
         mret (start, end_)
       else if String.eqb method_resolving_invalid_padding "raise" then
         fail (Exception "Padding is larger than the region")
       else
         fail (Exception "Unsupported method to resolve invalid padding")
     else mret (start - l_pad, end_ + r_pad));
  let '(start, end_) := bounds in
  pl_values ← call_values bw_pl_reader bw_pl chrom start end_;
  let pl_count := np_sum (np_nan_to_num pl_values) in
  mn_count ←
    (if single_bw then
       if negb (String.eqb strand ".") then
         fail (Exception
           "Strandness is not ignored while single_bw is set to True.")
       else mret 0%float
     else
       mn_values ← call_values bw_mn_reader bw_mn chrom start end_;
       mret (- np_sum (np_nan_to_num mn_values))%float);
  (* [count] stays unbound for a strand other than the three *)
  let count : option float :=
    if String.eqb strand "+" then Some pl_count
    else if String.eqb strand "-" then Some mn_count
    else if String.eqb strand "." then Some (pl_count + mn_count)%float
    else None in
  if String.eqb output_type "raw_count" then
    match count with
    | Some c => mret c
    | None => fail (UnboundLocalError "count")
    end
  else if String.eqb output_type "RPK" then
    let region_length := end_ - start in
    match count with
    | Some c => mret (c / float_of_Z region_length * 1000)%float
    | None => fail (UnboundLocalError "count")
    end
  else fail (UnboundLocalError "output").
End Numpy.

(** [np.nan_to_num] on an array of [float64], kept as a list: [nan]
    becomes [0.0] and an infinity the largest finite float of its sign. *)
Definition nan_to_num (xs : list float) : list float :=
  (fun x =>
     if PrimFloat.is_nan x then 0%float
     else if PrimFloat.eqb x infinity then 0x1.fffffffffffffp+1023%float
     else if PrimFloat.eqb x neg_infinity then (-0x1.fffffffffffffp+1023)%float
     else x) <$> xs.

(** [ndarray.sum] adding from the left, the order numpy follows on an
    array of fewer than eight elements. *)
Definition sum_from_left (xs : list float) : float :=
  fold_left PrimFloat.add xs 0%float.

(** A reader that has the value [v] at every base of every chromosome,
    and refuses bounds that pyBigWig refuses. *)
Definition constant_track (v : float) : bigwig :=
  BigWig (fun _ start end_ =>
            if bool_decide (0 ≤ start ∧ start < end_)
            then inr (replicate (Z.to_nat (end_ - start)) v)
            else inl (RuntimeError "Invalid interval bounds!")).

End CountBwSig.

(** ** Sample inputs *)

Module Samples.
Import Py BedTable.

(** A region file of four named regions, not in order; two of them have
    the same coordinates. *)
Definition regions : list row :=
  [Row "chr2" 5 10 [CStr "a"; CFloat 0; CStr "+"];
   Row "chr1" 7 9 [CStr "b"; CFloat 0; CStr "-"];
   Row "chr1" 3 8 [CStr "c"; CFloat 0; CStr "+"];
   Row "chr1" 3 8 [CStr "d"; CFloat 0; CStr "."]].

(** A [read_csv] that finds these regions in every file, and the typing
    of what it returns. *)
Definition read_regions (ipath : string) (names : list string)
    : result (list row) :=
  inr regions.

Definition typed (types : list (string * dtype)) (raw : list row)
    : result (list row) :=
  inr raw.

(** Regions without a missing value and without the texts [.], [None]
    and [nan]: rows that typing and filling leave as they are. *)
Definition plain_regions : list row :=
  [Row "chr2" 5 10 [CStr "a"; CFloat 0; CStr "+"];
   Row "chr1" 7 9 [CStr "b"; CFloat 0; CStr "-"];
   Row "chr1" 3 8 [CStr "c"; CFloat 0; CStr "+"];
   Row "chr1" 3 8 [CStr "d"; CFloat 0; CStr "-"]].

Definition read_plain_regions (ipath : string) (names : list string)
    : result (list row) :=
  inr plain_regions.

(** A frame that has the columns asked for, once each. *)
Definition columns (names : list string) (rows : list row)
    : result (list row) :=
  inr rows.

(** A [fillna] that finds nothing to fill. *)
Definition filled (df : data_frame) : result data_frame := inr df.


End Samples.

(** ** scripts/RGTools/BedTable.py: construction, access and writing *)

Module BedTableMore.
Import Py BedTable.

(** *** The constructors, statement by statement *)

(** An argument of a call: left out, [None], or a value. *)
Inductive argument (A : Type) : Type :=
| Omitted
| PyNone
| Given (a : A).
Arguments Omitted {A}.
Arguments PyNone {A}.
Arguments Given {A} a.

(** The value a parameter with default [None] is bound to. *)
Definition bound {A} (a : argument A) : option A :=
  match a with
  | Omitted | PyNone => None
  | Given x => Some x
  end.

(** The values the constructors store in attributes; [None] in an
    [option] is Python's [None]. *)
Inductive attr : Type :=
| AttrNames (v : option (list string))
| AttrDtypes (v : option (list dtype))
| AttrFrame (r : frame_ref).

(** An instance under construction: its class and its [__dict__]. *)
Record object : Type := Object {
  ob_class : bed_class;
  ob_dict : gmap string attr;
}.

Definition set_attr (self : object) (name : string) (v : attr) : object :=
  Object (ob_class self) (<[name := v]> (ob_dict self)).

(** [self.name] for a name that no class defines. *)
Definition read_attr (self : object) (name : string) : result attr :=
  match ob_dict self !! name with
  | Some v => inr v
  | None =>
      inl (AttributeError
             ("'" +:+ class_name (ob_class self)
              +:+ "' object has no attribute '" +:+ name +:+ "'"))
  end.

(** [self._extra_column_names] where a list is expected. *)
Definition read_names (self : object) : result (list string) :=
  v ← read_attr self "_extra_column_names";
  match v with
  | AttrNames (Some ns) => ret ns
  | _ =>
      raise (TypeError
        "can only concatenate list (not 'NoneType') to list")
  end.

(** The property [column_names], looked up on the class of [self]. *)
Definition column_names_of (self : object) : result (list string) :=
  match ob_class self with
  | BedTable3 => ret ["chrom"; "start"; "end"]
  | BedTable6 => ret ["chrom"; "start"; "end"; "name"; "score"; "strand"]
  | BedTable6Plus =>
      ns ← read_names self;
      ret (["chrom"; "start"; "end"; "name"; "score"; "strand"] ++ ns)
  | BedTablePairEnd =>
      (* [self.extra_column_names] returns [self._extra_column_names] *)
      ns ← read_names self;
      ret (["chrom"; "start"; "end"; "chrom2"; "start2"; "end2"; "name";
            "score"; "strand"; "strand2"] ++ ns)
  end.

(** [BedTable3.__init__(self, extra_column_names, extra_column_dtype)] *)
Definition init_BedTable3 (self : object)
    (names : argument (list string)) (dtypes : argument (list dtype))
    : M object :=
  let self := set_attr self "_BedTable3__extra_column_names"
                (AttrNames (bound names)) in
  let self := set_attr self "_BedTable3__extra_column_dtype"
                (AttrDtypes (bound dtypes)) in
  _ ← lift (column_names_of self);
  df ← new_frame [];
  mret (set_attr self "_data_df" (AttrFrame df)).

(** [BedTable6.__init__]: [super().__init__()] *)
Definition init_BedTable6 (self : object)
    (names : argument (list string)) (dtypes : argument (list dtype))
    : M object :=
  init_BedTable3 self Omitted Omitted.

(** [[str] * len(extra_column_names)] *)
Definition default_dtypes (names : option (list string))
    : result (list dtype) :=
  match names with
  | Some ns => ret (replicate (length ns) dt_str)
  | None => raise (TypeError "object of type 'NoneType' has no len()")
  end.

(** [not extra_column_dtype] *)
Definition falsy {A} (a : option (list A)) : bool :=
  match a with
  | None | Some [] => true
  | Some (_ :: _) => false
  end.

(** [BedTable6Plus.__init__(self, extra_column_names,
    extra_column_dtype=None)] *)
Definition init_BedTable6Plus (self : object)
    (names : argument (list string)) (dtypes : argument (list dtype))
    : M object :=
  match names with
  | Omitted =>
      throw (TypeError
        "__init__() missing 1 required positional argument: 'extra_column_names'")
  | _ =>
      let self := set_attr self "_extra_column_names"
                    (AttrNames (bound names)) in
      ds ← lift (if falsy (bound dtypes) then default_dtypes (bound names)
                 else ret (default [] (bound dtypes)));
      let self := set_attr self "_extra_column_dtype"
                    (AttrDtypes (Some ds)) in
      init_BedTable6 self Omitted Omitted
  end.

(** [BedTablePairEnd.__init__(self, extra_column_names=None,
    extra_column_dtype=None)] *)
Definition init_BedTablePairEnd (self : object)
    (names : argument (list string)) (dtypes : argument (list dtype))
    : M object :=
  self ← init_BedTable3 self Omitted Omitted;
  let self := set_attr self "_extra_column_names"
                (AttrNames (Some (if falsy (bound names) then []
                                  else default [] (bound names)))) in
  ds ← lift (if falsy (bound dtypes) then default_dtypes (bound names)
             else ret (default [] (bound dtypes)));
  mret (set_attr self "_extra_column_dtype" (AttrDtypes (Some ds))).

(** [c(extra_column_names, extra_column_dtype)] *)
Definition instantiate (c : bed_class)
    (names : argument (list string)) (dtypes : argument (list dtype))
    : M object :=
  let self := Object c ∅ in
  match c with
  | BedTable3 => init_BedTable3 self names dtypes
  | BedTable6 => init_BedTable6 self names dtypes
  | BedTable6Plus => init_BedTable6Plus self names dtypes
  | BedTablePairEnd => init_BedTablePairEnd self names dtypes
  end.

(** The instance as the record of module [BedTable] shows it. *)
Definition table_of (self : object) : option table :=
  match ob_dict self !! "_data_df" with
  | Some (AttrFrame df) =>
      match ob_class self with
      | BedTable3 | BedTable6 => Some (Table (ob_class self) [] [] df)
      | BedTable6Plus | BedTablePairEnd =>
          match ob_dict self !! "_extra_column_names",
                ob_dict self !! "_extra_column_dtype" with
          | Some (AttrNames (Some ns)), Some (AttrDtypes (Some ds)) =>
              Some (Table (ob_class self) ns ds df)
          | _, _ => None
          end
      end
  | _ => None
  end.

(** *** Rows by position *)

(** [BedTable3.__len__] *)
Definition __len__ (self : table) : M Z :=
  df ← get_frame (_data_df self);
  mret (Z.of_nat (length df)).

(** [df.iloc[index]]: a position from the front or, when negative, from
    the back; pandas raises [IndexError] outside of the frame. *)
Definition iloc (df : data_frame) (index : Z) : result (Z * row) :=
  let n := Z.of_nat (length df) in
  let position := if bool_decide (index < 0) then n + index else index in
  if bool_decide (0 ≤ position ∧ position < n) then
    match df !! Z.to_nat position with
    | Some r => ret r
    | None => raise (IndexError "single positional indexer is out-of-bounds")
    end
  else raise (IndexError "single positional indexer is out-of-bounds").

(** [BedTable3.get_region_by_index(index)]: the row, named by its
    label. *)
Definition get_region_by_index (self : table) (index : Z) : M (Z * row) :=
  df ← get_frame (_data_df self);
  lift (iloc df index).

(** A [BedTableIterator]: the table it was made for and its index. *)
Record BedTableIterator : Type := Iterator {
  it_bed_table : table;
  it_index : Z;
}.

(** [BedTable3.iter_regions] *)
Definition iter_regions (self : table) : BedTableIterator :=
  Iterator self 0.

(** [BedTableIterator.__next__]: [None] stands for [StopIteration];
    otherwise the region and the iterator after the call. *)
Definition __next__ (it : BedTableIterator)
    : M (option (Z * row) * BedTableIterator) :=
  n ← __len__ (it_bed_table it);
  if bool_decide (n ≤ it_index it) then mret (None, it)
  else
    region ← get_region_by_index (it_bed_table it) (it_index it);
    mret (Some region, Iterator (it_bed_table it) (it_index it + 1)).

(** [list(it)]: calls of [__next__] until [StopIteration], at most
    [fuel] of them; [None] when the fuel runs out first. *)
Fixpoint collect (fuel : nat) (it : BedTableIterator)
    : M (option (list (Z * row))) :=
  match fuel with
  | O => mret None
  | S fuel' =>
      step ← __next__ it;
      match step.1 with
      | None => mret (Some [])
      | Some region =>
          more ← collect fuel' step.2;
          mret (cons region <$> more)
      end
  end.

(** [get_chrom_names], [get_start_locs], [get_end_locs] *)
Definition get_chrom_names (self : table) : M (list string) :=
  df ← get_frame (_data_df self); mret (chrom <$> df.*2).
Definition get_start_locs (self : table) : M (list Z) :=
  df ← get_frame (_data_df self); mret (start <$> df.*2).
Definition get_end_locs (self : table) : M (list Z) :=
  df ← get_frame (_data_df self); mret (end_ <$> df.*2).

(** *** Writing *)

Section Write.
(** [str(x)] for a float [x] that is not [nan]. *)
Variable float_str : float → string.

(** [astype(str)] on a cell. *)
Definition cell_str (c : cell) : string :=
  match c with
  | CStr s => s
  | CInt z => pretty z
  | CFloat f => if PrimFloat.is_nan f then "nan" else float_str f
  | CMissing => "None"
  end.

(** [replace("nan", ".")] and [replace("None", ".")] on a text. *)
Definition sentinel (s : string) : string :=
  if String.eqb s "nan" then "."
  else if String.eqb s "None" then "."
  else s.

(** The fields of the line [to_csv] writes for a row. *)
Definition line_of (r : row) : list string :=
  sentinel <$> ([chrom r; pretty (start r); pretty (end_ r)]
                ++ (cell_str <$> rest r)).

(** [BedTable3.write(opath)]: the path and the lines handed to
    [to_csv], which writes them without header and index.  The columns
    that are turned into text are those of a copy of the frame; the
    [fillna] finds nothing to fill, [astype(str)] having turned every
    missing value into a text. *)
Definition write (self : table) (opath : string)
    : M (string * list (list string)) :=
  df ← get_frame (_data_df self);
  df2write ← new_frame df;
  copy ← get_frame df2write;
  mret (opath, line_of <$> copy.*2).
End Write.

(** An argument the scripts pass: a value, or nothing. *)
Definition as_argument {A} (o : option A) : argument A :=
  match o with
  | None => Omitted
  | Some a => Given a
  end.

End BedTableMore.

(** ** scripts/count_bw_sig.py: the arguments *)

Module CountArgs.
Import Py CountBwSig.

(** The namespace [argparse] builds with the parser of [set_parser].
    An option with [action="append"] that is not given leaves [None];
    [--sample] and [--bw_pl] are required, [--bw_mn] is not. *)
Record namespace : Type := Namespace {
  job_name : string;
  sample_names : list string;
  bw_pls : list string;
  bw_mns : option (list string);
  single_bw : bool;
  region_file_path : string;
  region_file_type : string;
  opath : string;
  ignore_strandness : bool;
  l_pad : Z;
  r_pad : Z;
  min_len_after_padding : Z;
  method_resolving_invalid_padding : string;
  output_type : string;
}.

(** [args.bw_mns = v] *)
Definition set_bw_mns (args : namespace) (v : option (list string))
    : namespace :=
  Namespace (job_name args) (sample_names args) (bw_pls args) v
    (single_bw args) (region_file_path args) (region_file_type args)
    (opath args) (ignore_strandness args) (l_pad args) (r_pad args)
    (min_len_after_padding args) (method_resolving_invalid_padding args)
    (output_type args).

(** Computations on a file system that may raise: the file system they
    leave, also when they raise, and the outcome. *)
Definition IO (fs A : Type) : Type := fs → fs * result A.

#[global] Instance IO_ret {fs} : MRet (IO fs) := fun A a w => (w, inr a).
#[global] Instance IO_bind {fs} : MBind (IO fs) := fun A B k m w =>
  match m w with
  | (w', inl e) => (w', inl e)
  | (w', inr a) => k a w'
  end.

Definition io_raise {fs A} (e : exception) : IO fs A := fun w => (w, inl e).

Section FileSystem.
Context {fs : Type}.
(** [os.path.exists(path)] and [os.makedirs(path)] *)
Variable path_exists : string → fs → bool.
Variable makedirs : string → fs → fs * result ().

Definition os_path_exists (path : string) : IO fs bool :=
  fun w => (w, inr (path_exists path w)).

Definition os_makedirs (path : string) : IO fs () := makedirs path.

(** [args_check_and_preprocessing(args)] *)
Definition args_check_and_preprocessing (args : namespace)
    : IO fs namespace :=
  args ←
    (if single_bw args then
       let args := set_bw_mns args (Some (bw_pls args)) in
       if negb (ignore_strandness args) then
         io_raise (Exception
           "Strandness is not ignored while single_bw is set to True.")
       else mret args
     else mret args);
  mismatch ←
    (if bool_decide (length (sample_names args) ≠ length (bw_pls args))
     then mret true
     else match bw_mns args with
          | Some mns =>
              mret (bool_decide (length (sample_names args) ≠ length mns))
          | None =>
              io_raise (TypeError "object of type 'NoneType' has no len()")
          end);
  _ ← (if mismatch : bool then
         io_raise (Exception
           "Number of samples do not match the number of bigwig files.")
       else mret ());
  found ← os_path_exists (region_file_path args);
  _ ← (if negb found then io_raise (Exception "Region file does not exist.")
       else mret ());
  found ← os_path_exists (opath args);
  _ ← (if negb found then os_makedirs (opath args) else mret ());
  _ ← (if negb (bool_decide (region_file_type args
                              ∈ REGION_FILE_SUFFIX2CLASS_DICT.*1)) then
         io_raise (Exception ("Unsupported region file type ("
                              +:+ region_file_type args +:+ ")."))
       else mret ());
  _ ← (if negb (bool_decide (output_type args ∈ ["raw_count"; "RPK"])) then
         io_raise (Exception ("Unsupported output type ("
                              +:+ output_type args +:+ ")."))
       else mret ());
  _ ← (if negb (bool_decide (min_len_after_padding args >= 1)) then
         io_raise (Exception
           "Minimum length after padding should be positive.")
       else mret ());
  _ ← (if negb (bool_decide (method_resolving_invalid_padding args
                              ∈ ["raise"; "fallback"])) then
         io_raise (Exception
           ("Unsupported method to resolve invalid padding ("
            +:+ method_resolving_invalid_padding args +:+ ")."))
       else mret ());
  mret args.
End FileSystem.

(** A file system as the set of the paths that exist, on which
    [makedirs] succeeds. *)
Definition listed (path : string) (w : list string) : bool :=
  bool_decide (path ∈ w).

Definition make_listed (path : string) (w : list string)
    : list string * result () :=
  (path :: w, inr ()).

(** The arguments of a run on one sample with two tracks. *)
Definition sample_args : namespace :=
  Namespace "job" ["s1"] ["s1.pl.bw"] (Some ["s1.mn.bw"]) false
    "regions.bed" "bed6" "out" false 0 0 50 "raise" "raw_count".

End CountArgs.

(** * The terms of the specification *)

(** ** Signal tracks *)

Module Tracks.
Import Py MergeMultiBw.

(** Two intervals that follow each other in a track: the second starts
    at or after the end of the first, and where they touch their values
    differ (under the [==] of floats). *)
Definition separated (a b : interval) : Prop :=
  iv_end a ≤ iv_start b ∧
  (iv_end a = iv_start b →
   PrimFloat.eqb (iv_value a) (iv_value b) = false).

(** Every interval of the list is a maximal run: no interval touches
    its successor with an equal value. *)
Fixpoint maximal_runs (l : list interval) : Prop :=
  match l with
  | a :: (b :: _) as l' => separated a b ∧ maximal_runs l'
  | _ => True
  end.

(** A value that the sweep takes for signal: a number other than zero. *)
Definition nonzero_number (v : float) : Prop :=
  PrimFloat.is_nan v = false ∧ PrimFloat.eqb v 0 = false.

(** A signal track of a chromosome of length [chrom_length]: intervals
    that are not empty and lie in [[0, chrom_length)], sorted, without
    overlap, and coalesced. *)
Definition signal_track (chrom_length : Z) (A : list interval) : Prop :=
  Forall (fun iv => 0 ≤ iv_start iv ∧ iv_start iv < iv_end iv ∧
                    iv_end iv ≤ chrom_length) A ∧
  maximal_runs A.

(** What holds of the loop variables when the loop is about to run at
    position [i]: the intervals emitted so far are maximal runs, and the
    open run starts after the last of them, or at its end with another
    value. *)
Record run_invariant (i : Z) (st : sweep_state) : Prop := RunInvariant {
  inv_emitted : maximal_runs (merged_interval_list st);
  inv_open_run : ∀ a,
    last (merged_interval_list st) = Some a →
    let n := Z.of_nat (length (temp_signal_stack st)) in
    (n = 0 → iv_end a < i) ∧
    (n ≠ 0 →
       iv_end a ≤ i - n ∧
       (iv_end a = i - n →
        PrimFloat.eqb (iv_value a) (stack_top (temp_signal_stack st))
        = false));
}.

(** The loop variables when [combine_bw_intervals A []] is about to run
    at position [i]: the intervals before the pointer have been
    emitted, and the stack holds the part of the pointer's interval that
    lies before [i]. *)
Record identity_invariant (A : list interval) (i : Z)
    (st : sweep_state) : Prop := IdentityInvariant {
  id_emitted : merged_interval_list st = take (rep1_pointer st) A;
  id_open :
    match A !! rep1_pointer st with
    | None => temp_signal_stack st = []
    | Some iv =>
        (iv_start iv < i ∧ i ≤ iv_end iv ∧
         temp_signal_stack st
         = replicate (Z.to_nat (i - iv_start iv)) (iv_value iv))
        ∨ (i ≤ iv_start iv ∧ temp_signal_stack st = [])
    end;
}.

End Tracks.

(** ** Padding and queries *)

Module Regions.
Import Py CountBwSig.

(** The padding leaves a region shorter than the minimal length. *)
Definition padding_invalid (start end_ l_pad r_pad min_len : Z) : Prop :=
  (end_ - start) + l_pad + r_pad < min_len.

#[export] Instance padding_invalid_dec start end_ l_pad r_pad min_len :
  Decision (padding_invalid start end_ l_pad r_pad min_len).
Proof. unfold padding_invalid. apply _. Defined.

(** The length of the region that was queried. *)
Definition effective_length (start end_ l_pad r_pad min_len : Z) : Z :=
  if bool_decide (padding_invalid start end_ l_pad r_pad min_len)
  then end_ - start
  else (end_ + r_pad) - (start - l_pad).

(** The run queried its readers over [[s, e)] of [chrom], the plus
    reader first. *)
Definition queries_region (r : Q float) (chrom : string) (s e : Z) : Prop :=
  head r.1 = Some (Query bw_pl_reader chrom s e) ∧
  Forall (fun q => q_chrom q = chrom ∧ q_start q = s ∧ q_end q = e) r.1.

End Regions.

(** ** Ordered tables *)

Module Tables.
Import Py BedTable.

(** The sort key of a row. *)
Definition key (r : row) : string * Z * Z := (chrom r, start r, end_ r).

(** The order of the specification on rows: by [chrom] in lexicographic
    order, then by [start], then by [end]. *)
Definition tuple_le (a b : row) : Prop :=
  String.ltb (chrom a) (chrom b) = true ∨
  (chrom a = chrom b ∧
   (start a < start b ∨ (start a = start b ∧ end_ a ≤ end_ b))).

(** The direct linear scan of the specification: every row is at or
    after its predecessor in the order of the tuples. *)
Definition linear_scan (rows : list row) : Prop := Sorted tuple_le rows.

(** What a load leaves in the frame: the frame as it is when the check
    passes, and the sorted frame with new labels otherwise. *)
Definition normalize (df : data_frame) : data_frame :=
  if is_sorted_rows df.*2 then df else range_index (sort_values df).*2.

(** The row lies on [chrom_] and inside [[start_, end__]]. *)
Definition contained (chrom_ : string) (start_ end__ : Z) (r : row) : Prop :=
  chrom r = chrom_ ∧ start_ ≤ start r ∧ end_ r ≤ end__.

#[export] Instance contained_dec chrom_ start_ end__ r :
  Decision (contained chrom_ start_ end__ r).
Proof. unfold contained. apply _. Defined.

(** The attributes of the instance are as a constructor leaves them:
    where there are extra columns, there are types for them. *)
Definition typed_extras (t : table) : Prop :=
  _extra_column_dtype t = [] → _extra_column_names t = [].

End Tables.

(** ** The sweep *)

Module Sweeps.
Import Py MergeMultiBw.

(** The state of the sweep with the two replicates exchanged. *)
Definition exchange (st : sweep_state) : sweep_state :=
  SweepState (rep2_pointer st) (rep1_pointer st)
    (temp_signal_stack st) (merged_interval_list st).

(** What the loop keeps about the intervals it has emitted when it is
    about to run at position [i]: each is a non-empty stretch of
    [[0, i-1]] with a value other than zero; the open run is not longer
    than [i] and its value is not zero. *)
Record emitted_invariant (i : Z) (st : sweep_state) : Prop := {
  emitted_stack_length : Z.of_nat (length (temp_signal_stack st)) ≤ i;
  emitted_stack_top :
    temp_signal_stack st ≠ [] →
    float_neb (stack_top (temp_signal_stack st)) 0 = true;
  emitted_intervals :
    Forall (fun iv => 0 ≤ iv_start iv ∧ iv_start iv < iv_end iv ∧
                      iv_end iv < i ∧ float_neb (iv_value iv) 0 = true)
      (merged_interval_list st);
}.

(** A track as a bigwig file holds it: from [lo] on, intervals that
    are not empty, in order of their positions, without overlap. *)
Fixpoint ordered_from (lo : Z) (A : list interval) : Prop :=
  match A with
  | [] => True
  | a :: A' =>
      lo ≤ iv_start a ∧ iv_start a < iv_end a ∧ ordered_from (iv_end a) A'
  end.

(** The base [i] lies in the interval. *)
Definition covers (i : Z) (iv : interval) : Prop :=
  iv_start iv ≤ i ∧ i < iv_end iv.

#[export] Instance covers_dec i iv : Decision (covers i iv).
Proof. unfold covers. apply _. Defined.

(** The interval of a track that holds the base [i], if there is one. *)
Definition covering (A : list interval) (i : Z) : option interval :=
  head (filter (covers i) A).

(** The signal of the two tracks at the base [i], added up as the loop
    does it: to 0 the value of the first track, then the value of the
    second, each where the track has one. *)
Definition signal_at (rep1 rep2 : list interval) (i : Z) : float :=
  let signal := 0%float in
  let signal := match covering rep1 i with
                | Some iv => (signal + iv_value iv)%float
                | None => signal
                end in
  match covering rep2 i with
  | Some iv => (signal + iv_value iv)%float
  | None => signal
  end.

(** The pointer into a track after the loop has run at position [i]:
    the intervals before it end at [i] or before, the interval under it
    ends after [i]. *)
Definition pointer_ok (A : list interval) (i : Z) (p : nat) : Prop :=
  (∀ (k : nat) (iv : interval),
     A !! k = Some iv → (k < p)%nat → iv_end iv ≤ i) ∧
  (∀ iv : interval, A !! p = Some iv → i < iv_end iv).

(** What the loop keeps on two tracks that are in order when it is
    about to run at position [i]: the pointers are where the position
    before [i] left them; the open run holds the signal of the bases
    before [i] it stands for; the intervals emitted have the signal of
    their bases as value; and a base before [i] with a signal is in an
    emitted interval or in the open run. *)
Record sum_invariant (rep1 rep2 : list interval) (i : Z)
    (st : sweep_state) : Prop := {
  sum_pointer1 : pointer_ok rep1 (i - 1) (rep1_pointer st);
  sum_pointer2 : pointer_ok rep2 (i - 1) (rep2_pointer st);
  sum_stack_length : Z.of_nat (length (temp_signal_stack st)) ≤ i;
  sum_stack :
    ∀ k : Z,
      i - Z.of_nat (length (temp_signal_stack st)) ≤ k < i →
      signal_at rep1 rep2 k = stack_top (temp_signal_stack st) ∧
      float_neb (stack_top (temp_signal_stack st)) 0 = true;
  sum_emitted :
    Forall (fun iv => iv_end iv ≤ i ∧
                      ∀ k : Z, covers k iv →
                        signal_at rep1 rep2 k = iv_value iv ∧
                        float_neb (iv_value iv) 0 = true)
      (merged_interval_list st);
  sum_complete :
    ∀ k : Z,
      0 ≤ k < i → float_neb (signal_at rep1 rep2 k) 0 = true →
      Exists (covers k) (merged_interval_list st)
      ∨ i - Z.of_nat (length (temp_signal_stack st)) ≤ k;
}.

End Sweeps.

(** ** Checked arguments *)

Module Checked.
Import Py CountBwSig CountArgs.

(** What the rest of the script relies on in the arguments. *)
Record checked (args : namespace) : Prop := {
  checked_single_bw :
    single_bw args = true →
    ignore_strandness args = true ∧ bw_mns args = Some (bw_pls args);
  checked_tracks :
    ∃ mns : list string,
      bw_mns args = Some mns ∧
      length (sample_names args) = length (bw_pls args) ∧
      length (sample_names args) = length mns;
  checked_region_file_type :
    region_file_type args ∈ ["bed3"; "bed6"; "bed6gene"];
  checked_output_type : output_type args ∈ ["raw_count"; "RPK"];
  checked_min_len : 1 ≤ min_len_after_padding args;
  checked_method :
    method_resolving_invalid_padding args ∈ ["raise"; "fallback"];
}.

(** The reader a query was made on. *)
Definition reader_of (bw_pl bw_mn : bigwig) (q : query) : bigwig :=
  match q_reader q with
  | bw_pl_reader => bw_pl
  | bw_mn_reader => bw_mn
  end.

End Checked.

(** * Properties *)

(** ** Facts about binary64 floats *)

Module FloatFacts.

Lemma float_add_zero_l (v : float) :
  PrimFloat.eqb v 0 = false → (0 + v)%float = v.
Proof.
  intros Hv. apply Prim2SF_inj.
  rewrite add_spec. rewrite FloatAxioms.eqb_spec in Hv.
  change (Prim2SF 0) with (S754_zero false) in *.
  destruct (Prim2SF v) as [s| s | | s m e]; try reflexivity.
  discriminate Hv.
Qed.

Lemma SFcompare_finite_Eq s1 m1 e1 s2 m2 e2 :
  SFcompare (S754_finite s1 m1 e1) (S754_finite s2 m2 e2) = Some Eq →
  s1 = s2 ∧ m1 = m2 ∧ e1 = e2.
Proof.
  simpl. destruct s1, s2; try discriminate.
  - destruct (Z.compare_spec e1 e2) as [He|He|He]; try discriminate.
    intros Hc. injection Hc as Hc.
    destruct (Pos.compare_cont Eq m1 m2) eqn:Hm; try discriminate.
    apply Pos.compare_eq in Hm. auto.
  - destruct (Z.compare_spec e1 e2) as [He|He|He]; try discriminate.
    intros Hc. injection Hc as Hc.
    apply Pos.compare_eq in Hc. auto.
Qed.

(** [x == y] on a [y] other than zero is equality of the two floats. *)
Lemma float_eqb_eq (x y : float) :
  PrimFloat.eqb x y = true → PrimFloat.eqb y 0 = false → x = y.
Proof.
  rewrite !FloatAxioms.eqb_spec.
  change (Prim2SF 0) with (S754_zero false).
  intros Hxy Hy. apply Prim2SF_inj.
  destruct (Prim2SF x) as [s1| s1 | | s1 m1 e1],
           (Prim2SF y) as [s2| s2 | | s2 m2 e2];
    try discriminate Hy; try discriminate Hxy;
    try (destruct s1; discriminate Hxy);
    try (destruct s2; discriminate Hxy).
  - destruct s1, s2; try discriminate Hxy; reflexivity.
  - unfold SFeqb in Hxy.
    destruct (SFcompare (S754_finite s1 m1 e1) (S754_finite s2 m2 e2))
      as [[]|] eqn:Hc; try discriminate.
    apply SFcompare_finite_Eq in Hc as (-> & -> & ->). reflexivity.
Qed.

Lemma float_eqb_refl (v : float) :
  PrimFloat.is_nan v = false → PrimFloat.eqb v v = true.
Proof. unfold PrimFloat.is_nan. by intros ->%negb_false_iff. Qed.

End FloatFacts.

(** ** The sweep of [combine_bw_intervals] *)

Module MergeSpec.
Import Py MergeMultiBw FloatFacts Tracks.

Lemma maximal_runs_snoc (l : list interval) (x : interval) :
  maximal_runs l →
  (∀ a, last l = Some a → separated a x) →
  maximal_runs (l ++ [x]).
Proof.
  induction l as [|a [|b l] IH]; simpl; intros Hl Hx.
  - done.
  - split; [by apply Hx | done].
  - destruct Hl as [Hab Hl]. split; [done|].
    apply IH; [done|]. intros c Hc. by apply Hx.
Qed.

#[local] Arguments stack_top : simpl never.
#[local] Arguments close_run : simpl never.

Ltac unfold_iv := unfold iv_start, iv_end, iv_value in *; simpl in *.

Lemma stack_top_snoc (stack : list float) (v : float) :
  stack_top (stack ++ [v]) = v.
Proof. unfold stack_top. apply last_last. Qed.

Lemma run_invariant_init (i : Z) : run_invariant i sweep_init.
Proof. split; simpl; [done | intros a [=]]. Qed.

Lemma close_run_separated (i : Z) (st : sweep_state) (a : interval) :
  run_invariant i st →
  temp_signal_stack st ≠ [] →
  last (merged_interval_list st) = Some a →
  separated a (close_run (temp_signal_stack st) i).
Proof.
  intros [_ Hopen] Hne Ha. destruct (Hopen a Ha) as [_ Hrun].
  assert (Z.of_nat (length (temp_signal_stack st)) ≠ 0) as Hn.
  { destruct (temp_signal_stack st); [done | simpl; lia]. }
  destruct (Hrun Hn) as [Hle Hv].
  unfold separated, close_run, iv_start, iv_end, iv_value in *; simpl.
  split; [lia | done].
Qed.

Lemma sweep_step_invariant (rep1 rep2 : list interval)
    (st : sweep_state) (i : Z) :
  run_invariant i st → run_invariant (i + 1) (sweep_step rep1 rep2 st i).
Proof.
  intros Hinv. unfold sweep_step.
  set (p1 := advance_pointer rep1 _ i).
  set (p2 := advance_pointer rep2 _ i).
  set (signal := add_signal rep2 p2 i _).
  destruct st as [q1 q2 stack merged]; simpl in *.
  destruct (float_neb signal 0) eqn:Hsig; simpl.
  - (* a signal at [i] *)
    assert (PrimFloat.eqb signal 0 = false) as Hsig0
      by (by apply negb_true_iff).
    case_bool_decide as Hlen; simpl.
    + (* it opens a run *)
      destruct Hinv as [Hm Hopen]; split; simpl; [done|].
      intros a Ha. destruct (Hopen a Ha) as [Hempty _]. simpl in *.
      apply length_zero_iff_nil in Hlen as ->. simpl in *.
      split; [lia|]. intros _. split; [lia|]. lia.
    + destruct (PrimFloat.eqb (stack_top stack) signal) eqn:Heq; simpl.
      * (* it extends the run *)
        apply float_eqb_eq in Heq; [|done].
        destruct Hinv as [Hm Hopen]; split; simpl; [done|].
        intros a Ha. destruct (Hopen a Ha) as [_ Hrun]. simpl in *.
        rewrite length_app, stack_top_snoc. simpl.
        split; [lia|]. intros _.
        destruct Hrun as [Hle Hv]; [lia|].
        split; [lia|]. intros He. rewrite <- Heq. apply Hv. lia.
      * (* it closes the run and opens the next *)
        unfold float_neb. rewrite Heq. simpl.
        assert (stack ≠ []) as Hne by (by intros ->).
        split; simpl.
        -- apply maximal_runs_snoc; [by destruct Hinv|].
           intros a Ha. by apply (close_run_separated i _ a Hinv).
        -- intros a Ha. rewrite last_snoc in Ha. injection Ha as <-.
           unfold close_run, iv_end, iv_value; simpl.
           split; [lia|]. intros _. split; [lia|]. done.
  - (* no signal at [i] *)
    case_bool_decide as Hlen; simpl.
    + destruct Hinv as [Hm Hopen]; split; simpl; [done|].
      intros a Ha. destruct (Hopen a Ha) as [Hempty _]. simpl in *.
      rewrite Hlen in *. simpl in *. split; [lia | done].
    + assert (stack ≠ []) as Hne by (by intros ->).
      split; simpl.
      * apply maximal_runs_snoc; [by destruct Hinv|].
        intros a Ha. by apply (close_run_separated i _ a Hinv).
      * intros a Ha. rewrite last_snoc in Ha. injection Ha as <-.
        unfold close_run, iv_end; simpl. split; [lia | done].
Qed.

Lemma sweep_invariant (rep1 rep2 : list interval) (n a : nat)
    (st : sweep_state) :
  run_invariant (Z.of_nat a) st →
  run_invariant (Z.of_nat (a + n))
    (sweep rep1 rep2 (map Z.of_nat (seq a n)) st).
Proof.
  revert a st. induction n as [|n IH]; intros a st Hinv; simpl.
  - by rewrite Nat.add_0_r.
  - replace (a + S n)%nat with (S a + n)%nat by lia.
    apply IH. replace (Z.of_nat (S a)) with (Z.of_nat a + 1) by lia.
    by apply sweep_step_invariant.
Qed.

(** C7.  Whatever the two tracks and the chromosome length, the merged
    list consists of maximal runs: an interval never touches the next
    one with an equal value; intervals with equal values that follow
    each other are separated by a gap. *)
Theorem merged_runs_are_maximal (rep1 rep2 : list interval)
    (chrom_length : Z) :
  maximal_runs (combine_bw_intervals rep1 rep2 chrom_length).
Proof.
  unfold combine_bw_intervals, range.
  apply (inv_emitted (Z.of_nat (0 + Z.to_nat chrom_length))).
  apply sweep_invariant, run_invariant_init.
Qed.

(** *** Merging with an empty track *)

Lemma maximal_runs_lookup (l : list interval) (p : nat) (a b : interval) :
  maximal_runs l → l !! p = Some a → l !! S p = Some b → separated a b.
Proof.
  revert p. induction l as [|x [|y l] IH]; intros p Hl Ha Hb.
  - done.
  - destruct p; done.
  - destruct Hl as [Hxy Hl]. destruct p as [|p].
    + simpl in Ha, Hb. by simplify_eq.
    + by apply (IH p).
Qed.

Lemma advance_pointer_nil (p : nat) (i : Z) : advance_pointer [] p i = p.
Proof. unfold advance_pointer. by rewrite lookup_nil. Qed.

Lemma add_signal_nil (p : nat) (i : Z) (x : float) :
  add_signal [] p i x = x.
Proof. unfold add_signal. by rewrite lookup_nil. Qed.

Lemma stack_top_replicate (n : nat) (v : float) :
  stack_top (v :: replicate n v) = v.
Proof. by rewrite replicate_cons_app, stack_top_snoc. Qed.

Section Identity.
Variable A : list interval.
Hypothesis A_intervals : Forall (fun iv => iv_start iv < iv_end iv) A.
Hypothesis A_runs : maximal_runs A.
Hypothesis A_values : Forall (fun iv => nonzero_number (iv_value iv)) A.

Lemma A_lookup (p : nat) (iv : interval) :
  A !! p = Some iv →
  iv_start iv < iv_end iv ∧ nonzero_number (iv_value iv).
Proof.
  intros Hp. split.
  - by apply (Forall_lookup_1 _ _ _ _ A_intervals Hp).
  - by apply (Forall_lookup_1 _ _ _ _ A_values Hp).
Qed.

Lemma identity_step (st : sweep_state) (i : Z) :
  identity_invariant A i st →
  identity_invariant A (i + 1) (sweep_step A [] st i).
Proof.
  destruct st as [p q stack merged]. intros [Hm Hopen]; simpl in *.
  unfold sweep_step; simpl.
  rewrite advance_pointer_nil, add_signal_nil.
  unfold advance_pointer.
  destruct (A !! p) as [[[s e] v]|] eqn:Hp; simpl in *.
  2:{ (* past the last interval *)
    subst stack. unfold add_signal. rewrite Hp. unfold_iv.
    split; simpl; [done | by rewrite Hp]. }
  destruct (A_lookup _ _ Hp) as [Hse [Hnan Hnz]]; simpl in *.
  unfold_iv.
  destruct Hopen as [(Hs & He & ->) | (Hs & ->)].
  - (* inside the interval at [i - 1] *)
    assert (∃ n, Z.to_nat (i - s) = S n) as [n Hn]
      by (exists (Z.to_nat (i - s - 1)); lia).
    rewrite Hn.
    case_bool_decide as Hend.
    + (* the interval ends at [i] *)
      assert (e = i) as -> by lia.
      simpl.
      assert (merged ++ [close_run (v :: replicate n v) i]
              = take (S p) A) as Hclose.
      { rewrite (take_S_r _ _ _ Hp), <- Hm. f_equal.
        unfold close_run. rewrite stack_top_replicate. simpl.
        rewrite length_replicate. do 3 f_equal. lia. }
      unfold add_signal.
      destruct (A !! S p) as [[[s' e'] v']|] eqn:Hp'; simpl.
      * pose proof (maximal_runs_lookup _ _ _ _ A_runs Hp Hp')
          as [Hle Hdiff].
        destruct (A_lookup _ _ Hp') as [Hse' [Hnan' Hnz']].
        unfold_iv.
        case_bool_decide as Hstart.
        -- (* the next interval starts at [i] *)
           rewrite (float_add_zero_l v' Hnz').
           unfold float_neb. rewrite Hnz'. simpl.
           rewrite stack_top_replicate.
           assert (i = s') as Htouch by lia.
           rewrite (Hdiff Htouch). simpl.
           split; simpl; [done|]. rewrite Hp'. unfold_iv. left.
           split; [lia|]. split; [lia|].
           by replace (Z.to_nat (i + 1 - s')) with 1%nat by lia.
        -- (* a gap follows *)
           change (float_neb 0 0) with false. simpl.
           split; simpl; [done|]. rewrite Hp'. unfold_iv. right.
           split; [lia | done].
      * change (float_neb 0 0) with false. simpl.
        split; simpl; [done | by rewrite Hp'].
    + (* the interval goes on *)
      unfold add_signal. rewrite Hp. unfold_iv.
      rewrite bool_decide_true by lia.
      rewrite (float_add_zero_l v Hnz).
      unfold float_neb. rewrite Hnz. simpl.
      rewrite stack_top_replicate, (float_eqb_refl v Hnan). simpl.
      split; simpl; [done|]. rewrite Hp. unfold_iv. left.
      split; [lia|]. split; [lia|].
      replace (Z.to_nat (i + 1 - s)) with (S (S n)) by lia.
      by rewrite (replicate_S_end (S n)).
  - (* before the interval *)
    rewrite bool_decide_false by lia.
    unfold add_signal. rewrite Hp. unfold_iv.
    case_bool_decide as Hstart.
    + rewrite (float_add_zero_l v Hnz).
      unfold float_neb. rewrite Hnz. simpl.
      split; simpl; [done|]. rewrite Hp. unfold_iv. left.
      split; [lia|]. split; [lia|].
      by replace (Z.to_nat (i + 1 - s)) with 1%nat by lia.
    + change (float_neb 0 0) with false. simpl.
      split; simpl; [done|]. rewrite Hp. unfold_iv. right.
      split; [lia | done].
Qed.

Lemma identity_sweep (n a : nat) (st : sweep_state) :
  identity_invariant A (Z.of_nat a) st →
  identity_invariant A (Z.of_nat (a + n))
    (sweep A [] (map Z.of_nat (seq a n)) st).
Proof.
  revert a st. induction n as [|n IH]; intros a st Hinv; simpl.
  - by rewrite Nat.add_0_r.
  - replace (a + S n)%nat with (S a + n)%nat by lia.
    apply IH. replace (Z.of_nat (S a)) with (Z.of_nat a + 1) by lia.
    by apply identity_step.
Qed.
End Identity.

Lemma identity_init (A : list interval) (chrom_length : Z) :
  signal_track chrom_length A → identity_invariant A 0 sweep_init.
Proof.
  intros [Hspan _]. split; simpl; [done|].
  destruct (A !! 0%nat) as [iv|] eqn:Hiv; [|done].
  right. split; [|done].
  by destruct (Forall_lookup_1 _ _ _ _ Hspan Hiv).
Qed.

(** C2, amended.  A track whose values are numbers other than zero and
    whose intervals all end before the end of the chromosome comes out
    of the merge with the empty track as it went in. *)
Theorem merge_with_empty_track (A : list interval) (chrom_length : Z) :
  signal_track chrom_length A →
  Forall (fun iv => nonzero_number (iv_value iv)) A →
  Forall (fun iv => iv_end iv < chrom_length) A →
  combine_bw_intervals A [] chrom_length = A.
Proof.
  intros Htrack Hvalues Hends.
  pose proof (identity_init A chrom_length Htrack) as Hinit.
  destruct Htrack as [Hspan Hruns].
  assert (Forall (fun iv => iv_start iv < iv_end iv) A) as Hiv.
  { eapply Forall_impl; [exact Hspan|]. simpl. intros iv. lia. }
  pose proof (identity_sweep A Hiv Hruns Hvalues
                (Z.to_nat chrom_length) 0 sweep_init Hinit) as Hfinal.
  unfold combine_bw_intervals, range.
  destruct Hfinal as [Hm Hopen]. rewrite Hm.
  set (st := sweep A [] _ sweep_init) in *.
  destruct (A !! rep1_pointer st) as [iv|] eqn:Hp.
  - pose proof (Forall_lookup_1 _ _ _ _ Hiv Hp) as Hse.
    pose proof (Forall_lookup_1 _ _ _ _ Hends Hp) as He.
    simpl in Hse, He. destruct Hopen as [(_ & Hle & _) | (Hle & _)]; lia.
  - apply take_ge. by apply lookup_ge_None.
Qed.

(** A track of three intervals, two of them touching and two of equal
    value across a gap, on a chromosome of length 20. *)
Lemma merge_with_empty_track_witness :
  let A := [(0, 5, 2.0%float); (5, 10, 3.0%float); (12, 15, 3.0%float)] in
  signal_track 20 A ∧ combine_bw_intervals A [] 20 = A.
Proof.
  assert (signal_track 20
            [(0, 5, 2.0%float); (5, 10, 3.0%float); (12, 15, 3.0%float)])
    as Htrack.
  { split.
    - repeat (apply Forall_cons_2; [unfold_iv; lia|]). apply Forall_nil_2.
    - simpl. repeat split; unfold_iv; try lia; intros _; reflexivity. }
  split; [exact Htrack|].
  apply (merge_with_empty_track _ 20 Htrack).
  - repeat (apply Forall_cons_2; [split; reflexivity|]). apply Forall_nil_2.
  - repeat (apply Forall_cons_2; [unfold_iv; lia|]). apply Forall_nil_2.
Defined.

(** C2 as the specification states it fails: an interval of value zero
    is a stretch without signal for the sweep, and is not emitted. *)
Lemma merge_with_empty_track_drops_zero :
  ¬ (∀ (A : list interval) (chrom_length : Z),
       signal_track chrom_length A →
       combine_bw_intervals A [] chrom_length = A).
Proof.
  intros Hclaim.
  specialize (Hclaim [(0, 5, 0.0%float)] 20).
  assert (signal_track 20 [(0, 5, 0.0%float)]) as Htrack.
  { split; [|done].
    apply Forall_cons_2; [unfold_iv; lia | apply Forall_nil_2]. }
  specialize (Hclaim Htrack).
  vm_compute in Hclaim. discriminate Hclaim.
Qed.

(** The loop ends at the last position without emitting the run that
    is open there. *)
Example open_run_at_chromosome_end :
  combine_bw_intervals [(0, 10, 2.0%float)] [] 10 = [] ∧
  combine_bw_intervals [(0, 10, 2.0%float)] [] 11 = [(0, 10, 2.0%float)].
Proof. split; vm_compute; reflexivity. Qed.

(** C3.  Scenario B of the specification. *)
Theorem scenario_B :
  combine_bw_intervals [(0, 10, 2.0%float)] [(5, 15, 3.0%float)] 20
  = [(0, 5, 2.0%float); (5, 10, 5.0%float); (10, 15, 3.0%float)].
Proof. vm_compute. reflexivity. Qed.

(** Intervals of equal value that a gap separates stay apart. *)
Example equal_values_across_a_gap :
  combine_bw_intervals [(0, 2, 1.0%float)] [(5, 7, 1.0%float)] 10
  = [(0, 2, 1.0%float); (5, 7, 1.0%float)].
Proof. vm_compute. reflexivity. Qed.

End MergeSpec.

(** ** Counting the signal of a region *)

Module CountSpec.
Import Py CountBwSig Regions.

Section Counting.
Variable np_nan_to_num : list float → list float.
Variable np_sum : list float → float.

Abbreviation count := (count_single_region np_nan_to_num np_sum).

Ltac unfold_count :=
  unfold count_single_region, call_values, fail, mbind, mret, Q_bind, Q_ret.

(** C1, amended.  The padding is invalid exactly when the padded length
    [(end - start) + l_pad + r_pad] is below [min_len_after_padding].
    Then [raise] fails before any query and [fallback] queries the
    bounds of the region; otherwise the padded bounds are queried. *)
Theorem padding_policy (bw_pl bw_mn : bigwig) (chrom : string)
    (start end_ : Z) (strand : string) (single_bw : bool)
    (output_type : string) (l_pad r_pad min_len : Z) (method : string) :
  let r := count bw_pl bw_mn chrom start end_ strand single_bw output_type
             l_pad r_pad min_len method in
  (padding_invalid start end_ l_pad r_pad min_len → method = "raise" →
   r = ([], inl (Exception "Padding is larger than the region")))
  ∧ (padding_invalid start end_ l_pad r_pad min_len → method = "fallback" →
     queries_region r chrom start end_)
  ∧ (¬ padding_invalid start end_ l_pad r_pad min_len →
     queries_region r chrom (start - l_pad) (end_ + r_pad)).
Proof.
  unfold padding_invalid, queries_region. unfold_count.
  split; [|split].
  - intros Hinv ->. rewrite bool_decide_true by lia. reflexivity.
  - intros Hinv ->. rewrite bool_decide_true by lia. simpl.
    split; repeat (case_match; simpl; simplify_eq);
      first [reflexivity | repeat constructor].
  - intros Hval. rewrite bool_decide_false by lia. simpl.
    split; repeat (case_match; simpl; simplify_eq);
      first [reflexivity | repeat constructor].
Qed.

(** C4.  With a valid padding and two readers, the count is the plus
    sum for strand [+], the negated sum of the minus reader for strand
    [-], and the plus sum added to that negated sum for strand [.]. *)
Theorem strand_combination (bw_pl bw_mn : bigwig) (chrom : string)
    (start end_ : Z) (strand : string) (l_pad r_pad min_len : Z)
    (method : string) (pl_values mn_values : list float) :
  ¬ padding_invalid start end_ l_pad r_pad min_len →
  values bw_pl chrom (start - l_pad) (end_ + r_pad) = inr pl_values →
  values bw_mn chrom (start - l_pad) (end_ + r_pad) = inr mn_values →
  let pl_sum := np_sum (np_nan_to_num pl_values) in
  let mn_sum := np_sum (np_nan_to_num mn_values) in
  let r := (count bw_pl bw_mn chrom start end_ strand false "raw_count"
              l_pad r_pad min_len method).2 in
  (strand = "+" → r = inr pl_sum)
  ∧ (strand = "-" → r = inr (- mn_sum)%float)
  ∧ (strand = "." → r = inr (pl_sum + - mn_sum)%float).
Proof.
  unfold padding_invalid. intros Hval Hpl Hmn. unfold_count.
  rewrite bool_decide_false by lia. simpl. rewrite Hpl, Hmn. simpl.
  repeat split; intros ->; reflexivity.
Qed.

(** C5.  On the same arguments, the run with output type [RPK] makes the
    queries of the run with [raw_count] and fails where it fails;
    where that one returns a count, it returns the count divided by the
    length of the queried region and multiplied by 1000. *)
Theorem rpk_formula (bw_pl bw_mn : bigwig) (chrom : string)
    (start end_ : Z) (strand : string) (single_bw : bool)
    (l_pad r_pad min_len : Z) (method : string) :
  let raw := count bw_pl bw_mn chrom start end_ strand single_bw
               "raw_count" l_pad r_pad min_len method in
  let length := effective_length start end_ l_pad r_pad min_len in
  count bw_pl bw_mn chrom start end_ strand single_bw "RPK"
    l_pad r_pad min_len method
  = (raw.1,
     match raw.2 with
     | inr c => inr (c / float_of_Z length * 1000)%float
     | inl e => inl e
     end).
Proof.
  unfold effective_length, padding_invalid. unfold_count.
  case_bool_decide as Htest.
  - rewrite bool_decide_true by lia.
    repeat (case_match; simpl in *; simplify_eq); reflexivity.
  - rewrite bool_decide_false by lia.
    repeat (case_match; simpl in *; simplify_eq); reflexivity.
Qed.

End Counting.

(** *** The scenarios of the specification *)

(** Scenario C: the plus reader sums to 8.0, the minus reader to -3.0. *)
Lemma scenario_C :
  let bw_pl := BigWig (fun _ _ _ => inr [3.0; 5.0]%float) in
  let bw_mn := BigWig (fun _ _ _ => inr [-1.0; -2.0]%float) in
  (count_single_region nan_to_num sum_from_left bw_pl bw_mn
     "chr1" 0 2 "." false "raw_count" 0 0 1 "raise").2 = inr 11.0%float.
Proof.
  refine (proj2 (proj2
    (strand_combination nan_to_num sum_from_left _ _ "chr1" 0 2 "."
       0 0 1 "raise" [3.0; 5.0]%float [-1.0; -2.0]%float _ _ _)) _).
  - unfold padding_invalid. lia.
  - reflexivity.
  - reflexivity.
  - reflexivity.
Defined.

(** Scenario D: pads of 100 on a region of length 30 make a region of
    length 230, which is not below the minimum of 50; both policies
    query the padded region. *)
Lemma scenario_D :
  let run := count_single_region nan_to_num sum_from_left
               (constant_track 1) (constant_track (-1))
               "chr1" 1000 1030 "+" false "raw_count" 100 100 50 in
  ¬ padding_invalid 1000 1030 100 100 50
  ∧ queries_region (run "raise") "chr1" 900 1130
  ∧ queries_region (run "fallback") "chr1" 900 1130.
Proof.
  assert (¬ padding_invalid 1000 1030 100 100 50) as Hval
    by (unfold padding_invalid; lia).
  split; [exact Hval|]. split.
  - exact (proj2 (proj2 (padding_policy nan_to_num sum_from_left
      (constant_track 1) (constant_track (-1)) "chr1" 1000 1030 "+" false
      "raw_count" 100 100 50 "raise")) Hval).
  - exact (proj2 (proj2 (padding_policy nan_to_num sum_from_left
      (constant_track 1) (constant_track (-1)) "chr1" 1000 1030 "+" false
      "raw_count" 100 100 50 "fallback")) Hval).
Defined.

(** C1 as the specification states it fails: in scenario D its test
    [(end - start) < min_len_after_padding + l_pad + r_pad] holds, and
    the run under [raise] returns a count. *)
Lemma padding_test_of_the_specification_fails :
  ¬ (∀ (np_nan_to_num : list float → list float)
       (np_sum : list float → float) (bw_pl bw_mn : bigwig)
       (chrom : string) (start end_ : Z) (strand : string)
       (single_bw : bool) (output_type : string)
       (l_pad r_pad min_len : Z),
       end_ - start < min_len + l_pad + r_pad →
       raises (count_single_region np_nan_to_num np_sum bw_pl bw_mn chrom
                 start end_ strand single_bw output_type
                 l_pad r_pad min_len "raise").2).
Proof.
  intros Hclaim.
  specialize (Hclaim nan_to_num sum_from_left
                (constant_track 1) (constant_track (-1))
                "chr1" 1000 1030 "+" false "raw_count" 100 100 50).
  assert (1030 - 1000 < 50 + 100 + 100) as Htest by lia.
  specialize (Hclaim Htest). vm_compute in Hclaim. exact Hclaim.
Qed.

Example scenario_D_count :
  count_single_region nan_to_num sum_from_left
    (constant_track 1) (constant_track (-1))
    "chr1" 1000 1030 "+" false "raw_count" 100 100 50 "raise"
  = ([Query bw_pl_reader "chr1" 900 1130; Query bw_mn_reader "chr1" 900 1130],
     inr 230%float).
Proof. vm_compute. reflexivity. Qed.

(** An invalid padding: negative pads shrink a region of length 30 to
    length 10. *)
Example shrinking_pads :
  let run := count_single_region nan_to_num sum_from_left
               (constant_track 1) (constant_track (-1))
               "chr1" 1000 1030 "+" false "raw_count" (-10) (-10) 50 in
  run "raise" = ([], inl (Exception "Padding is larger than the region"))
  ∧ run "fallback"
    = ([Query bw_pl_reader "chr1" 1000 1030;
        Query bw_mn_reader "chr1" 1000 1030], inr 30%float).
Proof. split; vm_compute; reflexivity. Qed.

(** Scenario A: a plus track of value 2.0 over a region of ten bases. *)
Example scenario_A :
  (count_single_region nan_to_num sum_from_left
     (constant_track 2) (BigWig (fun _ _ _ => inr []))
     "chr1" 0 10 "+" false "raw_count" 0 0 1 "raise").2 = inr 20%float.
Proof. vm_compute. reflexivity. Qed.

End CountSpec.

(** ** Bed tables *)

Module BedSpec.
Import Py BedTable Tables.

(** *** The order of the rows *)

Lemma string_compare_refl (a : string) : String.compare a a = Eq.
Proof.
  pose proof (String.compare_antisym a a) as H.
  destruct (String.compare a a); done.
Qed.

Lemma string_compare_cases (a b : string) :
  (String.compare a b = Lt ∧ String.compare b a = Gt ∧ a ≠ b)
  ∨ (String.compare a b = Eq ∧ a = b)
  ∨ (String.compare a b = Gt ∧ String.compare b a = Lt ∧ a ≠ b).
Proof.
  pose proof (String.compare_antisym b a) as H.
  destruct (String.compare a b) eqn:Hab; simpl in H.
  - right; left. split; [done|]. by apply String.compare_eq_iff.
  - left. repeat split; [done|]. intros ->.
    by rewrite string_compare_refl in Hab.
  - right; right. repeat split; [done|]. intros ->.
    by rewrite string_compare_refl in Hab.
Qed.

Ltac string_cases a b :=
  let H1 := fresh "Hc" in let H2 := fresh "Hc" in let H3 := fresh "Hne" in
  destruct (string_compare_cases a b)
    as [(H1 & H2 & H3) | [(H1 & H2) | (H1 & H2 & H3)]];
  unfold String.ltb;
  rewrite ?H1, ?H2, ?string_compare_refl;
  try (rewrite (proj2 (String.eqb_neq _ _)) by done);
  try (rewrite (proj2 (String.eqb_neq _ _)) by (intros ?; by subst));
  try subst b; rewrite ?String.eqb_refl, ?string_compare_refl.

(** The test [_is_sorted] makes on two rows that follow each other is
    the order of the tuples. *)
Lemma in_order_tuple_le (prev cur : row) :
  in_order prev cur = true ↔ tuple_le prev cur.
Proof.
  unfold in_order, tuple_le.
  string_cases (chrom cur) (chrom prev).
  - split; [done|]. intros [H | [H _]]; [done | by symmetry in H].
  - repeat case_bool_decide; split; try done;
      try (intros _; right; split; [done|lia]).
    all: intros [Hx | [_ Hx]]; [done | lia].
  - split; [by left | done].
Qed.

(** So is the comparison of [sort_values]. *)
Lemma key_leb_tuple_le (a b : row) :
  key_leb a b = true ↔ tuple_le a b.
Proof.
  unfold key_leb, tuple_le.
  string_cases (chrom a) (chrom b).
  - split; [by left | done].
  - destruct (Z.compare_spec (start a) (start b)); [case_bool_decide|..];
      split; try done; try (intros _; right; split; [done|lia]).
    all: intros [Hx | [_ Hx]]; [done | lia].
  - split; [done|]. intros [H | [H _]]; done.
Qed.

Lemma tuple_le_total (a b : row) : tuple_le a b ∨ tuple_le b a.
Proof.
  unfold tuple_le.
  string_cases (chrom a) (chrom b).
  - by left; left.
  - destruct (Z.lt_trichotomy (start a) (start b)) as [H | [H | H]].
    + left; right. split; [done|lia].
    + destruct (Z.le_ge_cases (end_ a) (end_ b)).
      * left; right. split; [done|lia].
      * right; right. split; [done|lia].
    + right; right. split; [done|lia].
  - by right; left.
Qed.

Lemma tuple_le_same_key (a b : row) : key a = key b → tuple_le a b.
Proof.
  unfold key. intros [= Hc Hs He]. right. split; [done|]. right. lia.
Qed.

Lemma is_sorted_from_spec (prev : row) (rows : list row) :
  is_sorted_from prev rows = true ↔ Sorted tuple_le (prev :: rows).
Proof.
  revert prev. induction rows as [|cur rows IH]; intros prev; simpl.
  - split; [|done]. intros _. by repeat constructor.
  - destruct (in_order prev cur) eqn:Hord.
    + rewrite IH. apply in_order_tuple_le in Hord. split.
      * intros Hs. constructor; [done | by constructor].
      * intros Hs. by inversion Hs.
    + split; [done|]. intros Hs. inversion Hs as [|? ? _ Hhd]; subst.
      inversion Hhd as [|? ? Hle]; subst.
      apply in_order_tuple_le in Hle. congruence.
Qed.

(** [_is_sorted] returns [True] exactly on the tables that pass the
    linear scan. *)
Lemma is_sorted_rows_spec (rows : list row) :
  is_sorted_rows rows = true ↔ linear_scan rows.
Proof.
  destruct rows as [|r rows]; simpl.
  - split; [|done]. intros _. constructor.
  - apply is_sorted_from_spec.
Qed.

(** *** Sorting *)

Lemma insert_sorted_perm (x : Z * row) (l : data_frame) :
  insert_sorted x l ≡ₚ x :: l.
Proof.
  induction l as [|y l IH]; simpl; [done|].
  destruct (key_leb x.2 y.2); [done|].
  rewrite IH. apply Permutation_swap.
Qed.

Lemma sort_values_perm (df : data_frame) : sort_values df ≡ₚ df.
Proof.
  induction df as [|x df IH]; simpl; [done|].
  by rewrite insert_sorted_perm, IH.
Qed.

Lemma insert_sorted_sorted (x : Z * row) (l : data_frame) :
  Sorted tuple_le l.*2 → Sorted tuple_le (insert_sorted x l).*2.
Proof.
  induction l as [|y l IH]; simpl; intros Hl.
  - by repeat constructor.
  - destruct (key_leb x.2 y.2) eqn:Hxy; simpl.
    + constructor; [done|]. constructor. by apply key_leb_tuple_le.
    + assert (tuple_le y.2 x.2) as Hyx.
      { destruct (tuple_le_total x.2 y.2) as [H|H]; [|done].
        apply key_leb_tuple_le in H. congruence. }
      inversion Hl as [|? ? Hl' Hhd]; subst.
      constructor; [by apply IH|].
      destruct l as [|z l]; simpl in *.
      * by constructor.
      * destruct (key_leb x.2 z.2); simpl; constructor; [done|].
        by inversion Hhd.
Qed.

Lemma sort_values_sorted (df : data_frame) :
  Sorted tuple_le (sort_values df).*2.
Proof.
  induction df as [|x df IH]; simpl; [constructor|].
  by apply insert_sorted_sorted.
Qed.

(** The sort is stable: rows with the same key keep their order. *)
Lemma insert_sorted_stable (k : string * Z * Z) (x : Z * row)
    (l : data_frame) :
  filter (fun r => key r = k) (insert_sorted x l).*2
  = filter (fun r => key r = k) (x :: l).*2.
Proof.
  induction l as [|y l IH]; [done|]. cbn [insert_sorted].
  destruct (key_leb x.2 y.2) eqn:Hxy; [done|].
  assert (key x.2 ≠ key y.2) as Hne.
  { intros Heq. apply tuple_le_same_key, key_leb_tuple_le in Heq.
    congruence. }
  rewrite !fmap_cons, !filter_cons in *. rewrite IH.
  repeat case_decide; try done. congruence.
Qed.

Lemma sort_values_stable (k : string * Z * Z) (df : data_frame) :
  filter (fun r => key r = k) (sort_values df).*2
  = filter (fun r => key r = k) df.*2.
Proof.
  induction df as [|x df IH]; [done|]. cbn [sort_values foldr].
  rewrite insert_sorted_stable. rewrite !fmap_cons, !filter_cons.
  by rewrite <- IH.
Qed.

Lemma range_index_rows (rows : list row) : (range_index rows).*2 = rows.
Proof.
  unfold range_index. rewrite fmap_imap.
  rewrite (imap_const id). apply list_fmap_id.
Qed.

Lemma range_index_labels (rows : list row) :
  (range_index rows).*1 = Z.of_nat <$> seq 0 (length rows).
Proof.
  unfold range_index. rewrite fmap_imap. apply (imap_seq_0 rows Z.of_nat).
Qed.

Lemma normalize_rows_sorted (df : data_frame) :
  is_sorted_rows (normalize df).*2 = true.
Proof.
  unfold normalize. destruct (is_sorted_rows df.*2) eqn:Hs; [done|].
  rewrite range_index_rows. apply is_sorted_rows_spec, sort_values_sorted.
Qed.

Lemma normalize_rows_perm (df : data_frame) : (normalize df).*2 ≡ₚ df.*2.
Proof.
  unfold normalize. destruct (is_sorted_rows df.*2); [done|].
  rewrite range_index_rows. by rewrite sort_values_perm.
Qed.

Lemma normalize_rows_stable (k : string * Z * Z) (df : data_frame) :
  filter (fun r => key r = k) (normalize df).*2
  = filter (fun r => key r = k) df.*2.
Proof.
  unfold normalize. destruct (is_sorted_rows df.*2); [done|].
  rewrite range_index_rows. apply sort_values_stable.
Qed.

Lemma normalize_labels (rows : list row) :
  (normalize (range_index rows)).*1 = Z.of_nat <$> seq 0 (length rows).
Proof.
  unfold normalize. destruct (is_sorted_rows _).
  - apply range_index_labels.
  - rewrite range_index_labels. do 2 f_equal.
    rewrite length_fmap.
    rewrite (Permutation_length (sort_values_perm _)).
    unfold range_index. by rewrite length_imap.
Qed.

Lemma normalize_sorted (df : data_frame) :
  is_sorted_rows df.*2 = true → normalize df = df.
Proof. unfold normalize. by intros ->. Qed.

(** *** Loading *)

Ltac unfold_M :=
  unfold mbind, mret, M_bind, M_ret, lift, throw, get_frame, set_frame,
    new_frame.

Lemma sort_unless_sorted_spec (self : table) (σ : heap) (df : data_frame) :
  σ !! _data_df self = Some df →
  sort_unless_sorted self σ
  = inr (self, <[_data_df self := normalize df]> σ).
Proof.
  intros Hdf. pose proof (lookup_lt_Some _ _ _ Hdf) as Hlt.
  unfold sort_unless_sorted, _is_sorted, _sort, normalize. unfold_M.
  rewrite Hdf. destruct (is_sorted_rows df.*2); simpl.
  - by rewrite list_insert_id.
  - rewrite Hdf. simpl. rewrite list_lookup_insert_eq by done.
    by rewrite list_insert_insert_eq.
Qed.

Lemma sort_new_frame (self : table) (σ : heap) (df : data_frame) :
  sort_unless_sorted (set_data_df self (length σ)) (σ ++ [df])
  = inr (set_data_df self (length σ), σ ++ [normalize df]).
Proof.
  rewrite (sort_unless_sorted_spec _ _ df); simpl.
  - rewrite insert_app_r_alt by done. by rewrite Nat.sub_diag.
  - by apply list_lookup_middle.
Qed.

Section Loading.
Context {raw_frame : Type}.
Variable read_csv : string → list string → result raw_frame.
Variable force_dtype : list (string * dtype) → raw_frame → result (list row).

Lemma load_from_file_spec (self : table) (ipath : string) (σ : heap)
    (raw : raw_frame) (rows : list row) :
  read_csv ipath (column_names self) = inr raw →
  force_dtype (column_types self) raw = inr rows →
  load_from_file read_csv force_dtype self ipath σ
  = inr (set_data_df self (length σ), σ ++ [normalize (range_index rows)]).
Proof.
  intros Hraw Hrows. unfold load_from_file. unfold_M.
  rewrite Hraw, Hrows. apply sort_new_frame.
Qed.

(** C6.  When the file can be read and its columns typed, the load
    returns; the rows of the table it leaves then pass [_is_sorted], are
    labelled from 0, and are the rows read in the order a stable sort by
    [(chrom, start, end)] gives them, which is the order read when that
    was sorted already.  [_is_sorted] passes exactly the tables that the
    linear scan of the specification passes. *)
Theorem load_sorts_table (self : table) (ipath : string) (σ : heap)
    (raw : raw_frame) (rows : list row) :
  read_csv ipath (column_names self) = inr raw →
  force_dtype (column_types self) raw = inr rows →
  (∃ (t : table) (σ' : heap) (df : data_frame),
     load_from_file read_csv force_dtype self ipath σ = inr (t, σ') ∧
     σ' !! _data_df t = Some df ∧
     _is_sorted t σ' = inr (true, σ') ∧
     linear_scan df.*2 ∧
     df.*1 = Z.of_nat <$> seq 0 (length rows) ∧
     df.*2 ≡ₚ rows ∧
     (∀ k, filter (fun r => key r = k) df.*2
           = filter (fun r => key r = k) rows) ∧
     (is_sorted_rows rows = true → df.*2 = rows))
  ∧ (∀ rows' : list row, is_sorted_rows rows' = true ↔ linear_scan rows').
Proof.
  intros Hraw Hrows. split; [|apply is_sorted_rows_spec].
  exists (set_data_df self (length σ)),
         (σ ++ [normalize (range_index rows)]),
         (normalize (range_index rows)).
  assert ((σ ++ [normalize (range_index rows)]) !! length σ
          = Some (normalize (range_index rows))) as Hnew
    by (by apply list_lookup_middle).
  split; [by apply (load_from_file_spec _ _ _ raw)|]. split; [done|].
  split.
  { unfold _is_sorted. unfold_M.
    change (_data_df (set_data_df self (length σ))) with (length σ).
    rewrite Hnew. by rewrite normalize_rows_sorted. }
  split; [apply is_sorted_rows_spec, normalize_rows_sorted|].
  split; [apply normalize_labels|].
  split; [by rewrite normalize_rows_perm, range_index_rows|].
  split.
  - intros k. by rewrite normalize_rows_stable, range_index_rows.
  - intros Hs. rewrite normalize_sorted; rewrite range_index_rows; done.
Qed.

End Loading.

(** *** Subsets *)

Lemma ascii_compare_refl (x : Ascii.ascii) : Ascii.compare x x = Eq.
Proof. unfold Ascii.compare. apply N.compare_refl. Qed.

Lemma string_lt_trans (a b c : string) :
  String.compare a b = Lt → String.compare b c = Lt →
  String.compare a c = Lt.
Proof.
  revert b c. induction a as [|x a IH]; intros [|y b] [|z c]; simpl;
    try done.
  destruct (Ascii.compare x y) eqn:Hxy, (Ascii.compare y z) eqn:Hyz;
    try done.
  - apply Ascii.compare_eq_iff in Hxy as ->.
    apply Ascii.compare_eq_iff in Hyz as ->.
    rewrite ascii_compare_refl. apply IH.
  - apply Ascii.compare_eq_iff in Hxy as ->. by rewrite Hyz.
  - apply Ascii.compare_eq_iff in Hyz as <-. by rewrite Hxy.
  - intros _ _. unfold Ascii.compare in *.
    rewrite N.compare_lt_iff in *.
    assert (Ascii.N_of_ascii x < Ascii.N_of_ascii z)%N as H by lia.
    apply N.compare_lt_iff in H. by rewrite H.
Qed.

#[local] Instance tuple_le_trans : Transitive tuple_le.
Proof.
  intros a b c. unfold tuple_le, String.ltb.
  intros [Hab | (Hab & Hab')] [Hbc | (Hbc & Hbc')].
  - left. destruct (String.compare (chrom a) (chrom b)) eqn:H1; try done.
    destruct (String.compare (chrom b) (chrom c)) eqn:H2; try done.
    by rewrite (string_lt_trans _ _ _ H1 H2).
  - left. by rewrite <- Hbc.
  - left. by rewrite Hab.
  - right. split; [congruence | lia].
Qed.

Lemma Forall_sublist {A} (P : A → Prop) (l l' : list A) :
  l' `sublist_of` l → Forall P l → Forall P l'.
Proof.
  induction 1 as [|x l1 l2 _ IH|x l1 l2 _ IH]; intros Hl; [done|..].
  - apply Forall_cons in Hl as [Hx Hl]. apply Forall_cons_2; auto.
  - apply Forall_cons in Hl as [_ Hl]. auto.
Qed.

Lemma StronglySorted_sublist {A} (R : relation A) (l l' : list A) :
  l' `sublist_of` l → StronglySorted R l → StronglySorted R l'.
Proof.
  induction 1 as [|x l1 l2 Hsub IH|x l1 l2 _ IH]; intros Hl; [done|..].
  - apply StronglySorted_inv in Hl as [Hl Hx].
    constructor; [auto|]. by apply (Forall_sublist _ l2).
  - apply StronglySorted_inv in Hl as [Hl _]. auto.
Qed.

(** A selection of rows of a table that passes [_is_sorted] passes it
    too. *)
Lemma is_sorted_rows_sublist (rows rows' : list row) :
  rows' `sublist_of` rows →
  is_sorted_rows rows = true → is_sorted_rows rows' = true.
Proof.
  intros Hsub Hs. apply is_sorted_rows_spec.
  apply StronglySorted_Sorted, (StronglySorted_sublist _ rows); [done|].
  apply (Sorted_StronglySorted tuple_le_trans). by apply is_sorted_rows_spec.
Qed.

(** The three selections of [region_subset] keep the rows that are
    contained in the query, in their order. *)
Lemma loc_where_rows (chrom_ : string) (start_ end__ : Z)
    (df : data_frame) :
  (loc_where (fun r => bool_decide (end_ r ≤ end__))
     (loc_where (fun r => bool_decide (start_ ≤ start r))
        (loc_where (fun r => String.eqb (chrom r) chrom_) df))).*2
  = filter (contained chrom_ start_ end__) df.*2.
Proof.
  unfold loc_where. induction df as [|[l r] df IH]; [done|].
  rewrite fmap_cons, filter_cons. simpl.
  unfold contained at 1.
  destruct (String.eqb_spec (chrom r) chrom_) as [Hc|Hc]; simpl.
  - case_bool_decide as Hs; simpl.
    + case_bool_decide as He; simpl.
      * rewrite decide_True by done. by rewrite <- IH.
      * rewrite decide_False by (intros (_ & _ & ?); done). apply IH.
    + rewrite decide_False by (intros (_ & ? & _); done). apply IH.
  - rewrite decide_False by (intros (? & _ & _); done). apply IH.
Qed.

(** Every constructor call of [region_subset] returns, except on a
    [BedTablePairEnd], of which there is no instance. *)
Lemma no_pair_end_instance (names : option (list string))
    (dtypes : option (list dtype)) (σ : heap) :
  construct BedTablePairEnd names dtypes σ
  = inl (AttributeError
      "'BedTablePairEnd' object has no attribute '_extra_column_names'").
Proof. reflexivity. Qed.

Lemma construct_with_extras (self : table) (σ : heap) :
  cls self ≠ BedTablePairEnd → typed_extras self →
  ∃ new,
    construct (cls self) (Some (extra_column_names self))
      (Some (extra_column_dtype self)) σ
    = inr (new, σ ++ [[]]) ∧
    cls new = cls self ∧ _data_df new = length σ ∧
    column_names new = column_names self ∧
    column_types new = column_types self ∧ typed_extras new.
Proof.
  intros Hcls Hextras.
  unfold construct, extra_column_names, extra_column_dtype, column_names,
    column_types, typed_extras in *.
  destruct self as [c names dtypes ref]. simpl in *.
  destruct c; try done; unfold_M.
  - eexists. repeat split; done.
  - eexists. repeat split; done.
  - destruct dtypes as [|d dtypes].
    + rewrite (Hextras eq_refl). eexists. repeat split; done.
    + eexists. repeat split; done.
Qed.

(** Every instance a constructor returns has types for its extra
    columns. *)
Lemma construct_typed_extras (c : bed_class)
    (names : option (list string)) (dtypes : option (list dtype))
    (σ σ' : heap) (t : table) :
  construct c names dtypes σ = inr (t, σ') → typed_extras t.
Proof.
  unfold construct, typed_extras. unfold_M.
  destruct c; try done.
  - by intros [= <- _].
  - by intros [= <- _].
  - destruct names as [ns|]; [|done].
    destruct dtypes as [[|d ds]|]; intros [= <- _]; simpl; try done.
    + by destruct ns.
    + by destruct ns.
Qed.


Section Frames.
Variable frame_of_values : list string → list row → result (list row).
Variable force_dtype : list (string * dtype) → list row → result (list row).

Abbreviation load := (load_from_dataframe frame_of_values force_dtype).
Abbreviation subset := (region_subset frame_of_values force_dtype).

Lemma load_from_dataframe_spec (self : table) (src : frame_ref)
    (σ : heap) (df : data_frame) (raw typed : list row) :
  σ !! src = Some df →
  frame_of_values (column_names self) df.*2 = inr raw →
  force_dtype (column_types self) raw = inr typed →
  load self src σ
  = inr (set_data_df self (length σ),
         σ ++ [normalize (range_index typed)]).
Proof.
  intros Hdf Hraw Htyped. unfold load_from_dataframe. unfold_M.
  rewrite Hdf, Hraw, Htyped. apply sort_new_frame.
Qed.

Lemma load_from_dataframe_fails (self : table) (src : frame_ref)
    (σ : heap) (df : data_frame) (raw : list row) (e : exception) :
  σ !! src = Some df →
  frame_of_values (column_names self) df.*2 = inr raw →
  force_dtype (column_types self) raw = inl e →
  load self src σ = inl e.
Proof.
  intros Hdf Hraw Hfails. unfold load_from_dataframe. unfold_M.
  by rewrite Hdf, Hraw, Hfails.
Qed.

Lemma load_from_dataframe_refused (self : table) (src : frame_ref)
    (σ : heap) (df : data_frame) (e : exception) :
  σ !! src = Some df →
  frame_of_values (column_names self) df.*2 = inl e →
  load self src σ
  = inl (match e with
         | ValueError _ =>
             BedTableLoadException
               "Error loading pd.DataFrame: number of columns does not match."
         | _ => e
         end).
Proof.
  intros Hdf Hfails. unfold load_from_dataframe. unfold_M.
  rewrite Hdf, Hfails. by destruct e.
Qed.

(** The frames [region_subset] allocates before the load, and the
    table it constructs. *)
Lemma region_subset_selects (self : table) (chrom_ : string)
    (start_ end__ : Z) (σ : heap) (df : data_frame) :
  cls self ≠ BedTablePairEnd → typed_extras self →
  σ !! _data_df self = Some df →
  ∃ (new : table) (f1 f2 f3 : data_frame),
    subset self chrom_ start_ end__ σ
    = load new (length σ + 2)%nat (σ ++ [f1; f2; f3; []]) ∧
    (σ ++ [f1; f2; f3; []]) !! (length σ + 2)%nat = Some f3 ∧
    f3.*2 = filter (contained chrom_ start_ end__) df.*2 ∧
    cls new = cls self ∧ _data_df new = (length σ + 3)%nat ∧
    column_names new = column_names self ∧
    column_types new = column_types self ∧ typed_extras new.
Proof.
  intros Hcls Hextras Hdf. unfold region_subset.
  unfold mbind, M_bind, get_frame, new_frame. rewrite Hdf.
  rewrite !list_lookup_middle by done.
  set (f1 := loc_where _ df). set (f2 := loc_where _ f1).
  set (f3 := loc_where _ f2).
  destruct (construct_with_extras self (((σ ++ [f1]) ++ [f2]) ++ [f3])
              Hcls Hextras)
    as (new & -> & Hnew & Href & Hnames & Htypes & Hnew_extras).
  exists new, f1, f2, f3.
  replace (length ((σ ++ [f1]) ++ [f2])) with (length σ + 2)%nat
    by (rewrite !length_app; simpl; lia).
  rewrite <- !app_assoc. simpl.
  split; [done|]. split.
  { rewrite lookup_app_r by lia.
    by replace (length σ + 2 - length σ)%nat with 2%nat by lia. }
  split; [unfold f3, f2, f1; by rewrite loc_where_rows|].
  split; [done|].
  split; [rewrite Href, !length_app; simpl; lia|].
  done.
Qed.

Lemma region_subset_spec (self : table) (chrom_ : string) (start_ end__ : Z)
    (σ : heap) (df : data_frame) (raw typed : list row) :
  cls self ≠ BedTablePairEnd → typed_extras self →
  σ !! _data_df self = Some df →
  frame_of_values (column_names self)
    (filter (contained chrom_ start_ end__) df.*2) = inr raw →
  force_dtype (column_types self) raw = inr typed →
  ∃ (new : table) (f1 f2 f3 : data_frame),
    subset self chrom_ start_ end__ σ
    = inr (new,
           σ ++ [f1; f2; f3; []; normalize (range_index typed)]) ∧
    cls new = cls self ∧ _data_df new = (length σ + 4)%nat ∧
    column_names new = column_names self ∧
    column_types new = column_types self ∧ typed_extras new.
Proof.
  intros Hcls Hextras Hdf Hraw Htyped.
  destruct (region_subset_selects self chrom_ start_ end__ σ df
              Hcls Hextras Hdf)
    as (new & f1 & f2 & f3 & -> & Hf3 & Hrows & Hnew & _ & Hnames & Htypes
        & Hnew_extras).
  rewrite (load_from_dataframe_spec new _ _ f3 raw typed);
    [|done|by rewrite Hnames, Hrows|by rewrite Htypes].
  exists (set_data_df new (length (σ ++ [f1; f2; f3; []]))), f1, f2, f3.
  split; [by rewrite <- !app_assoc|]. split; [done|].
  split; [simpl; rewrite !length_app; simpl; lia|].
  done.
Qed.


End Frames.

(** The load of the sample regions into a [BedTable6]. *)
Lemma load_sorts_table_witness :
  ∃ (t : table) (σ' : heap) (df : data_frame),
    load_from_file Samples.read_regions Samples.typed
      (Table BedTable6 [] [] 0) "regions.bed" [[]] = inr (t, σ') ∧
    σ' !! _data_df t = Some df ∧
    _is_sorted t σ' = inr (true, σ') ∧
    df.*1 = [0; 1; 2; 3] ∧
    df.*2 ≡ₚ Samples.regions.
Proof.
  destruct (load_sorts_table Samples.read_regions Samples.typed
              (Table BedTable6 [] [] 0) "regions.bed" [[]]
              Samples.regions Samples.regions eq_refl eq_refl)
    as [(t & σ' & df & Hload & Hdf & Hsorted & _ & Hlabels & Hperm & _) _].
  exists t, σ', df. repeat split; assumption.
Defined.

Example load_of_the_sample :
  load_from_file Samples.read_regions Samples.typed
    (Table BedTable6 [] [] 0) "regions.bed" [[]]
  = inr (Table BedTable6 [] [] 1,
         [[];
          [(0, Row "chr1" 3 8 [CStr "c"; CFloat 0; CStr "+"]);
           (1, Row "chr1" 3 8 [CStr "d"; CFloat 0; CStr "."]);
           (2, Row "chr1" 7 9 [CStr "b"; CFloat 0; CStr "-"]);
           (3, Row "chr2" 5 10 [CStr "a"; CFloat 0; CStr "+"])]]).
Proof. vm_compute. reflexivity. Qed.



(** *** Filters *)

Lemma select_mask_rows (df : data_frame) (mask : list bool) :
  (select_mask df mask).*2 = select_mask df.*2 mask.
Proof.
  revert mask. induction df as [|x df IH]; intros [|[] mask]; simpl;
    try done; by rewrite IH.
Qed.

Lemma select_mask_sublist {A} (l : list A) (mask : list bool) :
  select_mask l mask `sublist_of` l.
Proof.
  revert mask. induction l as [|x l IH]; intros [|[] mask]; simpl.
  - done.
  - done.
  - done.
  - apply sublist_nil_l.
  - by apply sublist_skip.
  - by apply sublist_cons.
Qed.

Section Filters.
Variable frame_of_values : list string → list row → result (list row).
Variable force_dtype : list (string * dtype) → list row → result (list row).

Abbreviation filter_table :=
  (apply_logical_filter frame_of_values force_dtype).

(** On a table of class [BedTable3] or [BedTable6] the filter does what
    the specification says: it refuses what is not a boolean array and
    a mask of another length than the table, and returns the rows at
    which the mask is true, as the load types them, in a new table. *)
Lemma apply_logical_filter_spec (self : table) (σ : heap)
    (df : data_frame) :
  cls self = BedTable3 ∨ cls self = BedTable6 →
  σ !! _data_df self = Some df →
  filter_table self NotNdarray σ
  = inl (ValueError "logical_array must be a np.array")
  ∧ (∀ dt n, filter_table self (Ndarray dt n) σ
             = inl (ValueError "logical_array must be a boolean np.array"))
  ∧ (∀ mask, length mask ≠ length df →
             filter_table self (BoolNdarray mask) σ
             = inl (IndexError ("Boolean index has wrong length: "
                                +:+ pretty (length mask) +:+ " instead of "
                                +:+ pretty (length df))))
  ∧ (∀ mask raw typed,
       length mask = length df →
       frame_of_values (column_names self) (select_mask df.*2 mask)
       = inr raw →
       force_dtype (column_types self) raw = inr typed →
       ∃ (new : table) (σ' : heap) (df' : data_frame),
         filter_table self (BoolNdarray mask) σ
         = inr (new, σ') ∧
         cls new = cls self ∧
         σ `prefix_of` σ' ∧
         _data_df new ≠ _data_df self ∧
         σ' !! _data_df new = Some df' ∧
         df'.*2 ≡ₚ typed ∧
         is_sorted_rows df'.*2 = true ∧
         (is_sorted_rows typed = true → df'.*2 = typed))
  ∧ (∀ mask raw e,
       length mask = length df →
       frame_of_values (column_names self) (select_mask df.*2 mask)
       = inr raw →
       force_dtype (column_types self) raw = inl e →
       filter_table self (BoolNdarray mask) σ = inl e).
Proof.
  intros Hcls Hdf. pose proof (lookup_lt_Some _ _ _ Hdf) as Hlt.
  split; [done|]. split; [done|].
  assert (construct (cls self) None None σ
          = inr (Table (cls self) [] [] (length σ), σ ++ [[]])) as Hnew
    by (by destruct Hcls as [-> | ->]).
  assert (column_types (Table (cls self) [] [] (length σ))
          = column_types self) as Htypes.
  { unfold column_types. simpl. by destruct Hcls as [-> | ->]. }
  assert (column_names (Table (cls self) [] [] (length σ))
          = column_names self) as Hnames.
  { unfold column_names. simpl. by destruct Hcls as [-> | ->]. }
  split; [|split].
  - intros mask Hlen. unfold apply_logical_filter.
    unfold mbind, M_bind. rewrite Hnew. unfold get_frame.
    rewrite lookup_app_l, Hdf by done. unfold lift, loc_mask.
    by rewrite bool_decide_false.
  - intros mask raw typed Hlen Hraw Htyped. unfold apply_logical_filter.
    unfold mbind, M_bind. rewrite Hnew. unfold get_frame.
    rewrite lookup_app_l, Hdf by done. unfold lift, loc_mask.
    rewrite bool_decide_true by done. unfold ret, new_frame.
    rewrite (load_from_dataframe_spec frame_of_values force_dtype _ _ _
               (select_mask df mask) raw typed);
      [|by apply list_lookup_middle
       |by rewrite Hnames, select_mask_rows
       |by rewrite Htypes].
    set (df' := normalize (range_index typed)).
    exists (Table (cls self) [] []
              (length ((σ ++ [[]]) ++ [select_mask df mask]))),
      (((σ ++ [[]]) ++ [select_mask df mask]) ++ [df']), df'.
    split; [done|]. split; [done|].
    split; [rewrite <- !app_assoc; by eexists|].
    split; [simpl; rewrite !length_app; simpl; lia|].
    split; [by apply list_lookup_middle|].
    split; [unfold df'; by rewrite normalize_rows_perm, range_index_rows|].
    split; [apply normalize_rows_sorted|].
    intros Hs. unfold df'.
    rewrite normalize_sorted; rewrite range_index_rows; done.
  - intros mask raw e Hlen Hraw Hfails. unfold apply_logical_filter.
    unfold mbind, M_bind. rewrite Hnew. unfold get_frame.
    rewrite lookup_app_l, Hdf by done. unfold lift, loc_mask.
    rewrite bool_decide_true by done. unfold ret, new_frame.
    apply (load_from_dataframe_fails frame_of_values force_dtype _ _ _
             (select_mask df mask) raw);
      [by apply list_lookup_middle
      |by rewrite Hnames, select_mask_rows
      |by rewrite Htypes].
Qed.

(** On a table of class [BedTable6Plus] it fails for every boolean
    array: the constructor is called without arguments. *)
Lemma apply_logical_filter_bed6plus (self : table) (mask : list bool)
    (σ : heap) :
  cls self = BedTable6Plus →
  filter_table self (BoolNdarray mask) σ
  = inl (TypeError
      "__init__() missing 1 required positional argument: 'extra_column_names'").
Proof.
  intros Hcls. unfold apply_logical_filter, mbind, M_bind.
  by rewrite Hcls.
Qed.

End Filters.

(** C9 fails on the tables of gene annotations that [count_bw_sig.py]
    loads: a boolean mask with one entry for each of the four rows is
    refused with a [TypeError], whatever the load of frames does,
    while [region_subset], which hands the extra columns to the
    constructor, returns a table. *)
Theorem filter_fails_on_gene_table :
  let genes := (fun r => Row (chrom r) (start r) (end_ r)
                           (rest r ++ [CStr "gene"])) <$> Samples.regions in
  let loaded :=
    (self ← CountBwSig.BedTable6Gene;
     load_from_file (fun _ _ => inr genes) Samples.typed self "genes.bed")
      [] in
  ∃ (self : table) (σ : heap),
    loaded = inr (self, σ) ∧
    cls self = BedTable6Plus ∧
    (∀ frame_of_values force_dtype,
       apply_logical_filter frame_of_values force_dtype self
         (BoolNdarray [true; false; true; true]) σ
       = inl (TypeError
           "__init__() missing 1 required positional argument: 'extra_column_names'")) ∧
    ¬ raises (region_subset Samples.columns Samples.typed self
                "chr1" 3 8 σ).
Proof.
  eexists _, _. split; [vm_compute; reflexivity|].
  split; [reflexivity|]. split; [intros frame_of_values force_dtype; reflexivity|].
  vm_compute. tauto.
Qed.

End BedSpec.

(** ** Region files *)

Module RegionInputSpec.
Import Py BedTable CountBwSig Tables BedSpec.

#[local] Arguments load_from_file : simpl never.

(** No class of [BedTable.py] defines [load_from_BedTable3], and no
    instance has an attribute of that name. *)
Lemma no_load_from_BedTable3 (c : bed_class) :
  has_attribute c "load_from_BedTable3" = false.
Proof. destruct c; vm_compute; reflexivity. Qed.

Section BedThree.
Context {raw_frame : Type}.
Variable read_csv : string → list string → result raw_frame.
Variable force_dtype : list (string * dtype) → raw_frame → result (list row).
Variable fillna : data_frame → result data_frame.

(** C10.  [parse_region_input] never returns for the file type [bed3]:
    when the file cannot be loaded it fails with the exception of the
    load, and when the file has been loaded it fails with the
    [AttributeError] of the call [load_from_BedTable3] on the new
    [BedTable6], a method that no class of the hierarchy has. *)
Theorem bed3_regions_cannot_be_parsed (region_file : string) (σ : heap) :
  raises (parse_region_input read_csv force_dtype fillna region_file "bed3" σ)
  ∧ (∀ (raw : raw_frame) (rows : list row),
       read_csv region_file ["chrom"; "start"; "end"] = inr raw →
       force_dtype [("chrom", dt_str); ("start", dt_int); ("end", dt_int)]
         raw = inr rows →
       parse_region_input read_csv force_dtype fillna region_file "bed3" σ
       = inl (AttributeError
           "'BedTable6' object has no attribute 'load_from_BedTable3'"))
  ∧ (∀ c : bed_class, has_attribute c "load_from_BedTable3" = false).
Proof.
  assert (∀ (raw : raw_frame) (rows : list row),
            read_csv region_file ["chrom"; "start"; "end"] = inr raw →
            force_dtype [("chrom", dt_str); ("start", dt_int);
                         ("end", dt_int)] raw = inr rows →
            parse_region_input read_csv force_dtype fillna region_file "bed3" σ
            = inl (AttributeError
                "'BedTable6' object has no attribute 'load_from_BedTable3'"))
    as Hloaded.
  { intros raw rows Hraw Hrows. unfold parse_region_input. simpl.
    unfold mbind, M_bind. simpl.
    rewrite (load_from_file_spec read_csv force_dtype
               (Table BedTable3 [] [] (length σ)) _ _ raw rows Hraw Hrows).
    reflexivity. }
  split; [|split; [exact Hloaded | exact no_load_from_BedTable3]].
  destruct (read_csv region_file ["chrom"; "start"; "end"])
    as [e|raw] eqn:Hraw.
  - unfold parse_region_input. simpl. unfold mbind, M_bind. simpl.
    unfold load_from_file, mbind, M_bind, lift, column_names. simpl.
    rewrite Hraw. by destruct e.
  - destruct (force_dtype [("chrom", dt_str); ("start", dt_int);
                           ("end", dt_int)] raw) as [e|rows] eqn:Hrows.
    + unfold parse_region_input. simpl. unfold mbind, M_bind. simpl.
      unfold load_from_file, mbind, M_bind, lift, column_names,
        column_types. simpl.
      by rewrite Hraw, Hrows.
    + by rewrite (Hloaded raw rows).
Qed.

End BedThree.

(** The other two file types are parsed. *)
Example bed6_regions_are_parsed :
  match parse_region_input Samples.read_regions Samples.typed
          Samples.filled "regions.bed" "bed6" [] with
  | inr (region_df, _) =>
      region_df
      = [("chr1_3_8", Row "chr1" 3 8 [CStr "c"; CFloat 0; CStr "+"]);
         ("chr1_3_8", Row "chr1" 3 8 [CStr "d"; CFloat 0; CStr "."]);
         ("chr1_7_9", Row "chr1" 7 9 [CStr "b"; CFloat 0; CStr "-"]);
         ("chr2_5_10", Row "chr2" 5 10 [CStr "a"; CFloat 0; CStr "+"])]
  | inl _ => False
  end.
Proof. vm_compute. reflexivity. Qed.

End RegionInputSpec.

(** ** More on the sweep *)

Module MergeMore.
Import Py MergeMultiBw FloatFacts Tracks Sweeps.

(** Adding two values to the initial [signal = 0] gives the same float
    in either order. *)
Lemma signal_add_comm (a b : float) :
  (0 + a + b)%float = (0 + b + a)%float.
Proof.
  apply Prim2SF_inj. rewrite !add_spec.
  change (Prim2SF 0) with (S754_zero false).
  destruct (Prim2SF a) as [sa|sa| |sa ma ea],
           (Prim2SF b) as [sb|sb| |sb mb eb];
    try reflexivity;
    try (destruct sa; reflexivity);
    try (destruct sb; reflexivity);
    try (destruct sa, sb; reflexivity).
  unfold SF64add, SFadd. by rewrite Z.min_comm, Z.add_comm.
Qed.

Lemma add_signal_comm (rep1 rep2 : list interval) (p1 p2 : nat) (i : Z) :
  add_signal rep2 p2 i (add_signal rep1 p1 i 0%float)
  = add_signal rep1 p1 i (add_signal rep2 p2 i 0%float).
Proof.
  unfold add_signal.
  destruct (rep1 !! p1) as [iv1|], (rep2 !! p2) as [iv2|]; try done.
  repeat case_bool_decide; try done. apply signal_add_comm.
Qed.

Lemma sweep_step_exchange (rep1 rep2 : list interval)
    (st : sweep_state) (i : Z) :
  sweep_step rep2 rep1 (exchange st) i
  = exchange (sweep_step rep1 rep2 st i).
Proof.
  unfold sweep_step, exchange. simpl.
  rewrite (add_signal_comm rep2 rep1).
  repeat case_match; reflexivity.
Qed.

Lemma sweep_exchange (rep1 rep2 : list interval) (positions : list Z)
    (st : sweep_state) :
  sweep rep2 rep1 positions (exchange st)
  = exchange (sweep rep1 rep2 positions st).
Proof.
  revert st. induction positions as [|i positions IH]; intros st; [done|].
  simpl. rewrite sweep_step_exchange. apply IH.
Qed.

(** The merge of two replicates does not depend on their order, down to
    the bits of the values. *)
Theorem combine_bw_intervals_comm (rep1 rep2 : list interval)
    (chrom_length : Z) :
  combine_bw_intervals rep1 rep2 chrom_length
  = combine_bw_intervals rep2 rep1 chrom_length.
Proof.
  unfold combine_bw_intervals.
  change sweep_init with (exchange sweep_init) at 2.
  by rewrite sweep_exchange.
Qed.

Lemma stack_top_last (stack : list float) (v : float) :
  stack_top (stack ++ [v]) = v.
Proof. unfold stack_top. apply last_last. Qed.

Lemma emitted_step (rep1 rep2 : list interval) (st : sweep_state) (i : Z) :
  0 ≤ i → emitted_invariant i st →
  emitted_invariant (i + 1) (sweep_step rep1 rep2 st i).
Proof.
  intros Hi [Hlen Htop Hout]. unfold sweep_step.
  set (signal := add_signal rep2 _ i _).
  destruct st as [q1 q2 stack merged]; simpl in *.
  assert (Forall (fun iv => 0 ≤ iv_start iv ∧ iv_start iv < iv_end iv ∧
                            iv_end iv < i + 1 ∧
                            float_neb (iv_value iv) 0 = true) merged)
    as Hout'.
  { eapply Forall_impl; [exact Hout|]. simpl.
    intros iv (Hs & Hse & He & Hv). repeat split; try done; lia. }
  assert (stack ≠ [] →
          Forall (fun iv => 0 ≤ iv_start iv ∧ iv_start iv < iv_end iv ∧
                            iv_end iv < i + 1 ∧
                            float_neb (iv_value iv) 0 = true)
            (merged ++ [close_run stack i])) as Hclose.
  { intros Hne. apply Forall_app. split; [done|].
    apply Forall_cons_2; [|apply Forall_nil_2].
    unfold close_run, iv_start, iv_end, iv_value. simpl.
    assert (0 < Z.of_nat (length stack))
      by (destruct stack; [done | simpl; lia]).
    repeat split; try lia. by apply Htop. }
  destruct (float_neb signal 0) eqn:Hsig; simpl.
  - case_bool_decide as Hempty; simpl.
    + split; simpl; [rewrite length_app; simpl; lia | | done].
      intros _. by rewrite stack_top_last.
    + assert (stack ≠ []) as Hne by (by intros ->).
      destruct (PrimFloat.eqb (stack_top stack) signal) eqn:Heq; simpl.
      * split; simpl; [rewrite length_app; simpl; lia | | done].
        intros _. by rewrite stack_top_last.
      * unfold float_neb at 1. rewrite Heq. simpl.
        split; simpl; [lia | | by apply Hclose].
        intros _. done.
  - case_bool_decide as Hempty; simpl.
    + split; simpl; [lia | done | done].
    + assert (stack ≠ []) as Hne by (by intros ->).
      split; simpl; [lia | done | by apply Hclose].
Qed.

Lemma emitted_sweep (rep1 rep2 : list interval) (n a : nat)
    (st : sweep_state) :
  emitted_invariant (Z.of_nat a) st →
  emitted_invariant (Z.of_nat (a + n))
    (sweep rep1 rep2 (map Z.of_nat (seq a n)) st).
Proof.
  revert a st. induction n as [|n IH]; intros a st Hinv; simpl.
  - by rewrite Nat.add_0_r.
  - replace (a + S n)%nat with (S a + n)%nat by lia.
    apply IH. replace (Z.of_nat (S a)) with (Z.of_nat a + 1) by lia.
    apply emitted_step; [lia | done].
Qed.

(** Whatever the two lists of intervals are, every interval of the
    merge is a non-empty stretch of the chromosome that ends before its
    last base, and its value is not zero. *)
Theorem merged_intervals_well_formed (rep1 rep2 : list interval)
    (chrom_length : Z) :
  Forall (fun iv => 0 ≤ iv_start iv ∧ iv_start iv < iv_end iv ∧
                    iv_end iv ≤ chrom_length - 1 ∧
                    float_neb (iv_value iv) 0 = true)
    (combine_bw_intervals rep1 rep2 chrom_length).
Proof.
  unfold combine_bw_intervals, range.
  assert (emitted_invariant 0 sweep_init) as Hinit.
  { split; simpl; [lia | done | apply Forall_nil_2]. }
  pose proof (emitted_sweep rep1 rep2 (Z.to_nat chrom_length) 0
                sweep_init Hinit) as [_ _ Hout].
  eapply Forall_impl; [exact Hout|]. simpl.
  intros iv (Hs & Hse & He & Hv). repeat split; try done; lia.
Qed.

(** *** The merge is the sum of the tracks *)

Lemma ordered_from_weaken (lo lo' : Z) (A : list interval) :
  lo' ≤ lo → ordered_from lo A → ordered_from lo' A.
Proof.
  destruct A as [|a A]; [done|]. simpl.
  intros Hlo (Ha & Hne & Hord). repeat split; [lia | done | done].
Qed.

Lemma ordered_from_lookup (lo : Z) (A : list interval) (k : nat)
    (iv : interval) :
  ordered_from lo A → A !! k = Some iv →
  lo ≤ iv_start iv ∧ iv_start iv < iv_end iv.
Proof.
  revert lo k. induction A as [|a A IH]; intros lo k; [done|].
  simpl. intros (Ha & Hne & Hord). destruct k as [|k]; simpl.
  - intros [= <-]. done.
  - intros Hk. destruct (IH (iv_end a) k Hord Hk). split; lia.
Qed.

Lemma ordered_from_next (lo : Z) (A : list interval) (k : nat)
    (a b : interval) :
  ordered_from lo A → A !! k = Some a → A !! S k = Some b →
  iv_end a ≤ iv_start b.
Proof.
  revert lo k. induction A as [|x A IH]; intros lo k; [done|].
  simpl. intros (Hx & Hne & Hord). destruct k as [|k]; simpl.
  - intros [= <-] Hb. by destruct (ordered_from_lookup _ _ _ _ Hord Hb).
  - intros Ha Hb. by apply (IH (iv_end x) k).
Qed.

Lemma no_cover_before (lo i : Z) (A : list interval) :
  ordered_from lo A → i < lo → filter (covers i) A = [].
Proof.
  revert lo. induction A as [|a A IH]; intros lo; [done|].
  simpl. intros (Ha & Hne & Hord) Hi.
  rewrite filter_cons, decide_False by (unfold covers; lia).
  apply (IH (iv_end a)); [done | lia].
Qed.

Lemma pointer_ok_init (A : list interval) :
  ordered_from 0 A → pointer_ok A (0 - 1) 0.
Proof.
  intros Hord. split; [intros k iv _ Hk; lia|].
  intros iv Hiv. destruct (ordered_from_lookup _ _ _ _ Hord Hiv). lia.
Qed.

Lemma advance_pointer_ok (lo : Z) (A : list interval) (i : Z) (p : nat) :
  ordered_from lo A → pointer_ok A (i - 1) p →
  pointer_ok A i (advance_pointer A p i).
Proof.
  intros Hord [Hbefore Hat]. unfold advance_pointer.
  destruct (A !! p) as [iv|] eqn:Hp.
  - case_bool_decide as Hend.
    + split.
      * intros k x Hk Hlt. destruct (decide (k = p)) as [->|Hne].
        -- by simplify_eq.
        -- assert (iv_end x ≤ i - 1) by (apply (Hbefore k); [done | lia]).
           lia.
      * intros x Hx.
        pose proof (ordered_from_next _ _ _ _ _ Hord Hp Hx).
        destruct (ordered_from_lookup _ _ _ _ Hord Hx).
        specialize (Hat iv eq_refl). lia.
    + split.
      * intros k x Hk Hlt.
        assert (iv_end x ≤ i - 1) by (by apply (Hbefore k)). lia.
      * intros x Hx. simplify_eq. lia.
  - split.
    + intros k x Hk Hlt.
      assert (iv_end x ≤ i - 1) by (by apply (Hbefore k)). lia.
    + intros x Hx. by rewrite Hp in Hx.
Qed.

Lemma covering_pointer (lo : Z) (A : list interval) (i : Z) (p : nat) :
  ordered_from lo A → pointer_ok A i p →
  covering A i
  = match A !! p with
    | Some iv => if bool_decide (iv_start iv ≤ i) then Some iv else None
    | None => None
    end.
Proof.
  revert lo p. induction A as [|a A IH]; intros lo p; [done|].
  simpl. intros (Ha & Hne & Hord) [Hbefore Hat]. unfold covering.
  destruct p as [|p]; simpl.
  - specialize (Hat a eq_refl). case_bool_decide as Hstart.
    + by rewrite filter_cons, decide_True by (unfold covers; lia).
    + rewrite filter_cons, decide_False by (unfold covers; lia).
      rewrite (no_cover_before (iv_end a)); [done | done | lia].
  - assert (iv_end a ≤ i) by (apply (Hbefore 0%nat); [done | lia]).
    rewrite filter_cons, decide_False by (unfold covers; lia).
    apply (IH (iv_end a) p Hord). split.
    + intros k x Hk Hlt. apply (Hbefore (S k)); [done | lia].
    + intros x Hx. by apply Hat.
Qed.

Lemma add_signal_covering (lo : Z) (A : list interval) (i : Z) (p : nat)
    (signal : float) :
  ordered_from lo A → pointer_ok A i p →
  add_signal A p i signal
  = match covering A i with
    | Some iv => (signal + iv_value iv)%float
    | None => signal
    end.
Proof.
  intros Hord Hp. rewrite (covering_pointer lo A i p Hord Hp).
  unfold add_signal. destruct (A !! p); [|done]. by case_bool_decide.
Qed.

Lemma sum_step (rep1 rep2 : list interval) (st : sweep_state) (i : Z) :
  ordered_from 0 rep1 → ordered_from 0 rep2 → 0 ≤ i →
  sum_invariant rep1 rep2 i st →
  sum_invariant rep1 rep2 (i + 1) (sweep_step rep1 rep2 st i).
Proof.
  intros Hord1 Hord2 Hi [Hp1 Hp2 Hlen Hstack Hout Hall].
  pose proof (advance_pointer_ok 0 rep1 i _ Hord1 Hp1) as Hq1.
  pose proof (advance_pointer_ok 0 rep2 i _ Hord2 Hp2) as Hq2.
  unfold sweep_step.
  rewrite (add_signal_covering 0 rep1 i _ 0 Hord1 Hq1).
  rewrite (add_signal_covering 0 rep2 i _ _ Hord2 Hq2).
  fold (signal_at rep1 rep2 i).
  set (signal := signal_at rep1 rep2 i).
  destruct st as [q1 q2 stack merged]; simpl in *.
  set (n := Z.of_nat (length stack)) in *.
  assert (Forall (fun iv => iv_end iv ≤ i + 1 ∧
                            ∀ k : Z, covers k iv →
                              signal_at rep1 rep2 k = iv_value iv ∧
                              float_neb (iv_value iv) 0 = true) merged)
    as Hout'.
  { eapply Forall_impl; [exact Hout|]. simpl.
    intros iv [He Hv]. split; [lia | done]. }
  assert (Forall (fun iv => iv_end iv ≤ i + 1 ∧
                            ∀ k : Z, covers k iv →
                              signal_at rep1 rep2 k = iv_value iv ∧
                              float_neb (iv_value iv) 0 = true)
            (merged ++ [close_run stack i])) as Hclose.
  { apply Forall_app. split; [done|].
    apply Forall_cons_2; [|apply Forall_nil_2].
    unfold close_run, covers, iv_start, iv_end, iv_value. simpl.
    split; [lia|]. intros k Hk. by apply Hstack. }
  assert (∀ k : Z, 0 ≤ k < i →
            float_neb (signal_at rep1 rep2 k) 0 = true →
            Exists (covers k) (merged ++ [close_run stack i])) as Hclosed.
  { intros k Hk Hsig. apply Exists_app.
    destruct (Hall k Hk Hsig) as [Hin|Hrun]; [by left|]. right.
    apply Exists_cons_hd.
    unfold close_run, covers, iv_start, iv_end. simpl. fold n. lia. }
  assert (∀ k : Z, 0 ≤ k < i + 1 →
            float_neb (signal_at rep1 rep2 k) 0 = true →
            float_neb signal 0 = false → 0 ≤ k < i) as Hzero.
  { intros k Hk Hsig Hnone. destruct (decide (k = i)) as [->|]; [|lia].
    fold signal in Hsig. congruence. }
  destruct (float_neb signal 0) eqn:Hsig; simpl.
  - case_bool_decide as Hempty; simpl.
    + apply length_zero_iff_nil in Hempty. subst stack. simpl in *.
      split; simpl; rewrite ?Z.add_simpl_r; try done; try lia.
      * intros k Hk. assert (k = i) as -> by lia. done.
      * intros k Hk Hk'. destruct (decide (k = i)) as [->|]; [right; lia|].
        destruct (Hall k ltac:(lia) Hk') as [Hin|Hrun]; [by left | lia].
    + destruct (PrimFloat.eqb (stack_top stack) signal) eqn:Heq; simpl.
      * assert (stack_top stack = signal) as Htop.
        { apply float_eqb_eq; [done|].
          unfold float_neb in Hsig. by apply negb_true_iff. }
        split; simpl; rewrite ?Z.add_simpl_r; try done;
          rewrite ?length_app, ?stack_top_last; simpl; try lia.
        -- intros k Hk. destruct (decide (k = i)) as [->|]; [done|].
           destruct (Hstack k) as [Hk' _]; [fold n; lia|].
           by rewrite Hk', Htop.
        -- intros k Hk Hk'.
           destruct (decide (k = i)) as [->|]; [right; lia|].
           destruct (Hall k ltac:(lia) Hk') as [Hin|Hrun]; [by left|].
           right. fold n in Hrun. lia.
      * unfold float_neb at 1. rewrite Heq. simpl.
        split; simpl; rewrite ?Z.add_simpl_r; try done; try lia.
        -- intros k Hk. assert (k = i) as -> by lia. done.
        -- intros k Hk Hk'.
           destruct (decide (k = i)) as [->|]; [right; lia|].
           left. apply Hclosed; [lia | done].
  - case_bool_decide as Hempty; simpl.
    + apply length_zero_iff_nil in Hempty. subst stack. simpl in *.
      split; simpl; rewrite ?Z.add_simpl_r; try done; try lia.
      intros k Hk Hk'. pose proof (Hzero k Hk Hk' eq_refl) as Hlt.
      destruct (Hall k Hlt Hk') as [Hin|Hrun]; [by left | lia].
    + split; simpl; rewrite ?Z.add_simpl_r; try done; try lia.
      intros k Hk Hk'. left. apply Hclosed; [|done].
      by apply Hzero.
Qed.

Lemma sum_sweep (rep1 rep2 : list interval) (n a : nat)
    (st : sweep_state) :
  ordered_from 0 rep1 → ordered_from 0 rep2 →
  sum_invariant rep1 rep2 (Z.of_nat a) st →
  sum_invariant rep1 rep2 (Z.of_nat (a + n))
    (sweep rep1 rep2 (map Z.of_nat (seq a n)) st).
Proof.
  intros Hord1 Hord2. revert a st.
  induction n as [|n IH]; intros a st Hinv; simpl.
  - by rewrite Nat.add_0_r.
  - replace (a + S n)%nat with (S a + n)%nat by lia.
    apply IH. replace (Z.of_nat (S a)) with (Z.of_nat a + 1) by lia.
    apply sum_step; [done | done | lia | done].
Qed.

(** On two tracks whose intervals are not empty, in order and without
    overlap, the merge is the sum of the tracks, but for the run that is
    open at the end of the chromosome: every base of an interval of the
    merge has the value of the interval as its signal, which is not
    zero; and a base of the chromosome that has a signal lies in an
    interval of the merge, unless every base from it to the end of the
    chromosome has a signal. *)
Theorem merge_is_the_sum_of_the_tracks (rep1 rep2 : list interval)
    (chrom_length : Z) :
  ordered_from 0 rep1 → ordered_from 0 rep2 →
  let merged := combine_bw_intervals rep1 rep2 chrom_length in
  (∀ (iv : interval) (k : Z),
     iv ∈ merged → covers k iv →
     signal_at rep1 rep2 k = iv_value iv ∧
     float_neb (signal_at rep1 rep2 k) 0 = true)
  ∧ (∀ k : Z,
       0 ≤ k < chrom_length →
       float_neb (signal_at rep1 rep2 k) 0 = true →
       (∃ iv : interval, iv ∈ merged ∧ covers k iv)
       ∨ (∀ j : Z, k ≤ j < chrom_length →
            float_neb (signal_at rep1 rep2 j) 0 = true)).
Proof.
  intros Hord1 Hord2 merged. subst merged.
  unfold combine_bw_intervals, range.
  assert (sum_invariant rep1 rep2 (Z.of_nat 0) sweep_init) as Hinit.
  { split; simpl; try (by apply pointer_ok_init); try lia; done. }
  pose proof (sum_sweep rep1 rep2 (Z.to_nat chrom_length) 0 sweep_init
                Hord1 Hord2 Hinit) as [_ _ Hlen Hstack Hout Hall].
  set (st := sweep rep1 rep2 _ sweep_init) in *.
  split.
  - intros iv k Hin Hk.
    rewrite Forall_forall in Hout.
    destruct (Hout iv Hin) as [_ Hv]. destruct (Hv k Hk) as [Hsig Hne].
    by rewrite Hsig.
  - intros k Hk Hsig.
    destruct (Hall k ltac:(lia) Hsig) as [Hin|Hrun].
    + left. by apply Exists_exists in Hin.
    + right. intros j Hj.
      destruct (Hstack j ltac:(lia)) as [Hj' Hne]. by rewrite Hj'.
Qed.

Lemma merge_is_the_sum_of_the_tracks_witness :
  let rep1 := [(2, 5, 1.5%float)] in
  let rep2 := [(4, 8, 2%float)] in
  combine_bw_intervals rep1 rep2 10
  = [(2, 4, 1.5%float); (4, 5, 3.5%float); (5, 8, 2%float)]
  ∧ signal_at rep1 rep2 4 = 3.5%float.
Proof.
  intros rep1 rep2.
  assert (combine_bw_intervals rep1 rep2 10
          = [(2, 4, 1.5%float); (4, 5, 3.5%float); (5, 8, 2%float)])
    as Hmerged by (vm_compute; reflexivity).
  split; [exact Hmerged|].
  assert (ordered_from 0 rep1) as Hord1
    by (unfold rep1; simpl; unfold iv_start, iv_end; simpl;
        repeat split; lia).
  assert (ordered_from 0 rep2) as Hord2
    by (unfold rep2; simpl; unfold iv_start, iv_end; simpl;
        repeat split; lia).
  refine (proj1 (proj1 (merge_is_the_sum_of_the_tracks rep1 rep2 10
                          Hord1 Hord2) (4, 5, 3.5%float) 4 _ _)).
  - rewrite Hmerged. apply list_elem_of_further, list_elem_of_here.
  - unfold covers, iv_start, iv_end. simpl. lia.
Defined.

End MergeMore.

(** ** More on bed tables *)

Module BedMore.
Import Py BedTable BedTableMore Tables BedSpec.

(** *** Construction *)

(** No call of the constructor of [BedTablePairEnd] returns: the
    constructor of [BedTable3], which it calls first, asks the class for
    [column_names] before [_extra_column_names] exists. *)
Theorem pair_end_cannot_be_instantiated
    (names : argument (list string)) (dtypes : argument (list dtype))
    (σ : heap) :
  instantiate BedTablePairEnd names dtypes σ
  = inl (AttributeError
      "'BedTablePairEnd' object has no attribute '_extra_column_names'").
Proof. reflexivity. Qed.

(** The statements of the constructors, run on the arguments the
    scripts pass (a list, or nothing), raise what [construct] raises and
    otherwise leave the instance and the frames that [construct]
    returns. *)
Theorem construct_follows_the_constructors (c : bed_class)
    (names : option (list string)) (dtypes : option (list dtype))
    (σ : heap) :
  match instantiate c (as_argument names) (as_argument dtypes) σ,
        construct c names dtypes σ with
  | inr (self, σ1), inr (t, σ2) => table_of self = Some t ∧ σ1 = σ2
  | inl e1, inl e2 => e1 = e2
  | _, _ => False
  end.
Proof.
  destruct c, names as [names|], dtypes as [[|d dtypes]|];
    vm_compute; try done.
Qed.

(** *** Iteration *)

Lemma len_spec (self : table) (σ : heap) (df : data_frame) :
  σ !! _data_df self = Some df →
  __len__ self σ = inr (Z.of_nat (length df), σ).
Proof. intros Hdf. unfold __len__. unfold_M. by rewrite Hdf. Qed.

Lemma iloc_position (df : data_frame) (k : nat) (r : Z * row) :
  df !! k = Some r → iloc df (Z.of_nat k) = inr r.
Proof.
  intros Hk. pose proof (lookup_lt_Some _ _ _ Hk) as Hlt. unfold iloc.
  rewrite (bool_decide_false (Z.of_nat k < 0)) by lia.
  rewrite bool_decide_true by lia.
  by rewrite Nat2Z.id, Hk.
Qed.

Lemma next_spec (self : table) (σ : heap) (df : data_frame) (k : nat) :
  σ !! _data_df self = Some df →
  __next__ (Iterator self (Z.of_nat k)) σ
  = inr (match df !! k with
         | Some r => (Some r, Iterator self (Z.of_nat k + 1))
         | None => (None, Iterator self (Z.of_nat k))
         end, σ).
Proof.
  intros Hdf. unfold __next__. unfold mbind, M_bind. simpl.
  rewrite (len_spec self σ df Hdf).
  destruct (df !! k) as [r|] eqn:Hk.
  - pose proof (lookup_lt_Some _ _ _ Hk) as Hlt.
    rewrite bool_decide_false by lia.
    unfold get_region_by_index. unfold_M. rewrite Hdf.
    by rewrite (iloc_position df k r Hk).
  - apply lookup_ge_None in Hk. by rewrite bool_decide_true by lia.
Qed.

Lemma collect_spec (self : table) (σ : heap) (df : data_frame)
    (fuel k : nat) :
  σ !! _data_df self = Some df →
  (length df - k < fuel)%nat →
  collect fuel (Iterator self (Z.of_nat k)) σ = inr (Some (drop k df), σ).
Proof.
  intros Hdf. revert k. induction fuel as [|fuel IH]; intros k Hfuel;
    [lia|].
  cbn [collect]. unfold mbind at 1, M_bind at 1.
  rewrite (next_spec self σ df k Hdf).
  destruct (df !! k) as [r|] eqn:Hk; cbn [fst snd].
  - pose proof (lookup_lt_Some _ _ _ Hk) as Hlt.
    unfold mbind, M_bind.
    replace (Z.of_nat k + 1) with (Z.of_nat (S k)) by lia.
    rewrite IH by lia. unfold mret, M_ret. simpl.
    by rewrite (drop_S _ _ _ Hk).
  - apply lookup_ge_None in Hk. unfold mret, M_ret.
    by rewrite drop_ge.
Qed.

(** An iterator made by [iter_regions] hands out the rows of the table
    from the first to the last, each with its label, and then stops;
    once at the end it stays there.  Every call of [iter_regions] starts
    from the first row again, and no call changes a frame. *)
Theorem iteration_in_table_order (self : table) (σ : heap)
    (df : data_frame) :
  σ !! _data_df self = Some df →
  (∀ fuel : nat, (length df < fuel)%nat →
     collect fuel (iter_regions self) σ = inr (Some df, σ))
  ∧ (∀ k : nat, (length df ≤ k)%nat →
       __next__ (Iterator self (Z.of_nat k)) σ
       = inr ((None, Iterator self (Z.of_nat k)), σ)).
Proof.
  intros Hdf. split.
  - intros fuel Hfuel.
    change (iter_regions self) with (Iterator self (Z.of_nat 0)).
    rewrite (collect_spec self σ df fuel 0 Hdf) by lia. by rewrite drop_0.
  - intros k Hk. rewrite (next_spec self σ df k Hdf).
    by rewrite lookup_ge_None_2.
Qed.

(** The rows of the loaded sample, drawn from an iterator. *)
Lemma iteration_in_table_order_witness :
  let df := range_index Samples.regions in
  collect 5 (iter_regions (Table BedTable6 [] [] 0)) [df]
  = inr (Some df, [df]).
Proof.
  refine (proj1 (iteration_in_table_order (Table BedTable6 [] [] 0)
                   [range_index Samples.regions]
                   (range_index Samples.regions) _) 5%nat _).
  - reflexivity.
  - simpl. lia.
Defined.

(** [get_region_by_index] counts a negative index from the last row
    and refuses an index outside of the table. *)
Theorem region_by_index (self : table) (σ : heap) (df : data_frame)
    (index : Z) :
  σ !! _data_df self = Some df →
  let n := Z.of_nat (length df) in
  (0 ≤ index < n →
   get_region_by_index self index σ
   = inr (default (0, Row "" 0 0 []) (df !! Z.to_nat index), σ)
   ∧ is_Some (df !! Z.to_nat index))
  ∧ (- n ≤ index < 0 →
     get_region_by_index self index σ
     = get_region_by_index self (n + index) σ)
  ∧ (index < - n ∨ n ≤ index →
     get_region_by_index self index σ
     = inl (IndexError "single positional indexer is out-of-bounds")).
Proof.
  intros Hdf n. subst n. unfold get_region_by_index. unfold_M.
  rewrite Hdf. unfold iloc. split; [|split].
  - intros Hin. rewrite (bool_decide_false (index < 0)) by lia.
    rewrite bool_decide_true by lia.
    destruct (df !! Z.to_nat index) as [r|] eqn:Hr; [by eauto|].
    apply lookup_ge_None in Hr. lia.
  - intros Hin. rewrite (bool_decide_true (index < 0)) by lia.
    rewrite (bool_decide_false (Z.of_nat (length df) + index < 0)) by lia.
    done.
  - intros Hout.
    rewrite (bool_decide_false (0 ≤ _ ∧ _ < _)); [done|].
    case_bool_decide; lia.
Qed.

Lemma region_by_index_witness :
  let self := Table BedTable6 [] [] 0 in
  let σ := [range_index Samples.regions] in
  get_region_by_index self (-1) σ = get_region_by_index self 3 σ.
Proof.
  refine (proj1 (proj2 (region_by_index (Table BedTable6 [] [] 0)
                          [range_index Samples.regions]
                          (range_index Samples.regions) (-1) _)) _).
  - reflexivity.
  - simpl. lia.
Defined.

(** *** Sorting in place and loading a frame *)

Lemma sort_values_sorted_id (df : data_frame) :
  Sorted tuple_le df.*2 → sort_values df = df.
Proof.
  induction df as [|x df IH]; [done|]. rewrite fmap_cons.
  intros Hs. inversion Hs as [|? ? Hs' Hhd]; subst.
  cbn [sort_values foldr]. fold (sort_values df). rewrite IH by done.
  destruct df as [|y df]; [done|]. cbn [insert_sorted].
  rewrite fmap_cons in Hhd. inversion Hhd as [|? ? Hxy]; subst.
  apply key_leb_tuple_le in Hxy. by rewrite Hxy.
Qed.

(** [_sort] works on the frame of the table and on no other: afterwards
    that frame passes [_is_sorted], is labelled from 0, and holds the
    rows it held in the order of a stable sort; a second [_sort] changes
    nothing. *)
Theorem sort_in_place (self : table) (σ : heap) (df : data_frame) :
  σ !! _data_df self = Some df →
  ∃ (σ' : heap) (df' : data_frame),
    _sort self σ = inr ((), σ') ∧
    σ' !! _data_df self = Some df' ∧
    length σ' = length σ ∧
    (∀ r : frame_ref, r ≠ _data_df self → σ' !! r = σ !! r) ∧
    _is_sorted self σ' = inr (true, σ') ∧
    df'.*1 = Z.of_nat <$> seq 0 (length df) ∧
    df'.*2 ≡ₚ df.*2 ∧
    (∀ k, filter (fun r => key r = k) df'.*2
          = filter (fun r => key r = k) df.*2) ∧
    _sort self σ' = inr ((), σ').
Proof.
  intros Hdf. pose proof (lookup_lt_Some _ _ _ Hdf) as Hlt.
  set (df' := range_index (sort_values df).*2).
  assert (_sort self σ = inr ((), <[_data_df self := df']> σ)) as Hrun.
  { unfold _sort. unfold_M. rewrite Hdf. simpl.
    rewrite list_lookup_insert_eq by done.
    by rewrite list_insert_insert_eq. }
  assert (<[_data_df self := df']> σ !! _data_df self = Some df') as Hnew
    by (by apply list_lookup_insert_eq).
  assert (Sorted tuple_le df'.*2) as Hsorted.
  { unfold df'. rewrite range_index_rows. apply sort_values_sorted. }
  exists (<[_data_df self := df']> σ), df'.
  split; [done|]. split; [done|].
  split; [by rewrite length_insert|].
  split; [intros r Hr; by rewrite list_lookup_insert_ne|].
  split.
  { unfold _is_sorted. unfold_M. rewrite Hnew.
    by rewrite (proj2 (is_sorted_rows_spec _) Hsorted). }
  split.
  { unfold df'. rewrite range_index_labels. do 2 f_equal.
    by rewrite length_fmap, (Permutation_length (sort_values_perm df)). }
  split; [unfold df'; by rewrite range_index_rows, sort_values_perm|].
  split.
  { intros k. unfold df'. rewrite range_index_rows.
    apply sort_values_stable. }
  unfold _sort. unfold_M. rewrite Hnew. simpl.
  rewrite list_lookup_insert_eq
    by (by rewrite length_insert).
  rewrite (sort_values_sorted_id df' Hsorted).
  rewrite !list_insert_insert_eq.
  unfold df' at 1. by rewrite range_index_rows.
Qed.

(** The sample regions, sorted where they lie. *)
Lemma sort_in_place_witness :
  let self := Table BedTable6 [] [] 1 in
  let σ := [[]; range_index Samples.regions] in
  ∃ (σ' : heap) (df' : data_frame),
    _sort self σ = inr ((), σ') ∧
    σ' !! 1%nat = Some df' ∧
    σ' !! 0%nat = Some [] ∧
    _is_sorted self σ' = inr (true, σ').
Proof.
  destruct (sort_in_place (Table BedTable6 [] [] 1)
              [[]; range_index Samples.regions]
              (range_index Samples.regions) eq_refl)
    as (σ' & df' & Hrun & Hnew & _ & Hother & Hsorted & _).
  exists σ', df'. repeat split; try assumption.
  by rewrite (Hother 0%nat).
Defined.

Section Retyping.
Variable frame_of_values : list string → list row → result (list row).
Variable force_dtype : list (string * dtype) → list row → result (list row).

Abbreviation load := (load_from_dataframe frame_of_values force_dtype).
Abbreviation subset := (region_subset frame_of_values force_dtype).
Abbreviation filter_table :=
  (apply_logical_filter frame_of_values force_dtype).

(** [load_from_dataframe] builds a frame of its own from the rows of
    the frame it is given and types it.  When the frame cannot be built,
    the load fails with the exception, a [ValueError] turned into a
    [BedTableLoadException]; when the typing fails, it fails with the
    exception of the typing.  Otherwise the frame given and every other
    frame stay as they are, and the new one passes [_is_sorted], is
    labelled from 0 and holds the rows as they were typed, in the order
    of a stable sort. *)
Theorem load_from_dataframe_copies (self : table) (src : frame_ref)
    (σ : heap) (df : data_frame) :
  σ !! src = Some df →
  (∀ raw typed : list row,
     frame_of_values (column_names self) df.*2 = inr raw →
     force_dtype (column_types self) raw = inr typed →
     ∃ (t : table) (σ' : heap) (df' : data_frame),
       load self src σ = inr (t, σ') ∧
       cls t = cls self ∧
       σ `prefix_of` σ' ∧
       _data_df t = length σ ∧
       σ' !! _data_df t = Some df' ∧
       _is_sorted t σ' = inr (true, σ') ∧
       df'.*1 = Z.of_nat <$> seq 0 (length typed) ∧
       df'.*2 ≡ₚ typed ∧
       (∀ k, filter (fun r => key r = k) df'.*2
             = filter (fun r => key r = k) typed) ∧
       (is_sorted_rows typed = true → df'.*2 = typed))
  ∧ (∀ (raw : list row) (e : exception),
       frame_of_values (column_names self) df.*2 = inr raw →
       force_dtype (column_types self) raw = inl e →
       load self src σ = inl e)
  ∧ (∀ e : exception,
       frame_of_values (column_names self) df.*2 = inl e →
       load self src σ
       = inl (match e with
              | ValueError _ =>
                  BedTableLoadException
                    "Error loading pd.DataFrame: number of columns does not match."
              | _ => e
              end)).
Proof.
  intros Hdf.
  split; [|split].
  2:{ intros raw e Hraw He.
      by apply (load_from_dataframe_fails _ _ _ _ _ df raw). }
  2:{ intros e He. by apply (load_from_dataframe_refused _ _ _ _ _ df). }
  intros raw typed Hraw Htyped.
  set (df' := normalize (range_index typed)).
  assert ((σ ++ [df']) !! length σ = Some df') as Hnew
    by (by apply list_lookup_middle).
  exists (set_data_df self (length σ)), (σ ++ [df']), df'.
  split; [by apply (load_from_dataframe_spec _ _ _ _ _ df raw)|].
  split; [done|].
  split; [by eexists|]. split; [done|]. split; [done|].
  split.
  { unfold _is_sorted. unfold_M.
    change (_data_df (set_data_df self (length σ))) with (length σ).
    rewrite Hnew. unfold df'. by rewrite normalize_rows_sorted. }
  split; [unfold df'; by rewrite normalize_labels|].
  split; [unfold df'; by rewrite normalize_rows_perm, range_index_rows|].
  split.
  { intros k. unfold df'.
    by rewrite normalize_rows_stable, range_index_rows. }
  intros Hs. unfold df'.
  rewrite normalize_sorted; rewrite range_index_rows; done.
Qed.

(** *** Subsets of subsets, and filters *)

Lemma contained_twice (chrom_ : string) (s1 e1 s2 e2 : Z)
    (rows : list row) :
  filter (contained chrom_ s2 e2) (filter (contained chrom_ s1 e1) rows)
  = filter (contained chrom_ (s1 `max` s2) (e1 `min` e2)) rows.
Proof.
  induction rows as [|r rows IH]; [done|].
  rewrite (filter_cons (contained chrom_ s1 e1)).
  rewrite (filter_cons (contained chrom_ (s1 `max` s2) (e1 `min` e2))).
  destruct (decide (contained chrom_ s1 e1 r)) as [H1|H1].
  - rewrite filter_cons.
    destruct (decide (contained chrom_ s2 e2 r)) as [H2|H2].
    + rewrite decide_True; [by rewrite IH|].
      destruct H1 as (? & ? & ?), H2 as (? & ? & ?).
      split; [done|]. lia.
    + rewrite decide_False; [done|].
      intros (? & ? & ?). apply H2. split; [done|]. lia.
  - rewrite decide_False; [done|].
    intros (? & ? & ?). apply H1. split; [done|]. lia.
Qed.

(** On a table whose rows are in order, and where the load leaves the
    rows of the two selections as they are, the subset of a subset on
    the same chromosome holds the rows of the subset for the
    intersection of the two intervals. *)
Theorem region_subset_twice (self : table) (chrom_ : string)
    (s1 e1 s2 e2 : Z) (σ : heap) (df : data_frame) :
  cls self ≠ BedTablePairEnd →
  typed_extras self →
  σ !! _data_df self = Some df →
  is_sorted_rows df.*2 = true →
  let first := filter (contained chrom_ s1 e1) df.*2 in
  let both :=
    filter (contained chrom_ (s1 `max` s2) (e1 `min` e2)) df.*2 in
  frame_of_values (column_names self) first = inr first →
  force_dtype (column_types self) first = inr first →
  frame_of_values (column_names self) both = inr both →
  force_dtype (column_types self) both = inr both →
  ∃ (t1 t2 : table) (σ1 σ2 : heap) (df2 : data_frame),
    subset self chrom_ s1 e1 σ = inr (t1, σ1) ∧
    subset t1 chrom_ s2 e2 σ1 = inr (t2, σ2) ∧
    σ2 !! _data_df t2 = Some df2 ∧
    σ2 !! _data_df self = Some df ∧
    df2.*2 = both.
Proof.
  intros Hcls Hextras Hdf Hsorted rows1 both Hraw1 Htyped1 Hraw2 Htyped2.
  pose proof (lookup_lt_Some _ _ _ Hdf) as Hlt.
  destruct (region_subset_spec frame_of_values force_dtype self chrom_
              s1 e1 σ df _ _ Hcls Hextras Hdf Hraw1 Htyped1)
    as (t1 & f1 & f2 & f3 & Hrun1 & Hcls1 & Href1 & Hnames1 & Htypes1
        & Hextras1).
  assert (is_sorted_rows rows1 = true) as Hs1.
  { apply (is_sorted_rows_sublist df.*2); [apply sublist_filter | done]. }
  rewrite (normalize_sorted (range_index rows1)) in Hrun1
    by (by rewrite range_index_rows).
  set (σ1 := σ ++ [f1; f2; f3; []; range_index rows1]) in *.
  assert (σ1 !! _data_df t1 = Some (range_index rows1)) as Hdf1.
  { rewrite Href1. unfold σ1. rewrite lookup_app_r by lia.
    by replace (length σ + 4 - length σ)%nat with 4%nat by lia. }
  assert (cls t1 ≠ BedTablePairEnd) as Hcls1' by congruence.
  assert (filter (contained chrom_ s2 e2) (range_index rows1).*2 = both)
    as Hrows2.
  { rewrite range_index_rows. apply contained_twice. }
  assert (frame_of_values (column_names t1)
            (filter (contained chrom_ s2 e2) (range_index rows1).*2)
          = inr both) as Hraw2' by (by rewrite Hnames1, Hrows2).
  assert (force_dtype (column_types t1) both = inr both) as Htyped2'
    by (by rewrite Htypes1).
  destruct (region_subset_spec frame_of_values force_dtype t1 chrom_
              s2 e2 σ1 _ _ _ Hcls1' Hextras1 Hdf1 Hraw2' Htyped2')
    as (t2 & g1 & g2 & g3 & Hrun2 & Hcls2 & Href2 & _).
  assert (is_sorted_rows both = true) as Hs2.
  { apply (is_sorted_rows_sublist df.*2); [apply sublist_filter | done]. }
  rewrite (normalize_sorted (range_index both)) in Hrun2
    by (by rewrite range_index_rows).
  exists t1, t2, σ1, (σ1 ++ [g1; g2; g3; []; range_index both]),
    (range_index both).
  split; [done|]. split; [done|]. split.
  { rewrite Href2. rewrite lookup_app_r by lia.
    by replace (length σ1 + 4 - length σ1)%nat with 4%nat by lia. }
  split.
  { unfold σ1. rewrite !lookup_app_l; [done | lia |].
    rewrite length_app. lia. }
  by rewrite range_index_rows.
Qed.

(** On a table of class [BedTable3] or [BedTable6], the filter refuses
    an argument that is not an array of booleans with a [ValueError] and
    a mask of another length than the table with the [IndexError] of
    pandas.  For a mask of the length of the table it loads the rows at
    which the mask is true into a new table of the same class, which
    builds a frame of them and types it: when the typing fails, the call
    fails with its exception; otherwise the new table, on a frame of
    its own, holds these rows as they were typed, in order; the table
    that was filtered is as it was. *)
Theorem filter_keeps_masked_rows (self : table) (σ : heap)
    (df : data_frame) :
  cls self = BedTable3 ∨ cls self = BedTable6 →
  σ !! _data_df self = Some df →
  filter_table self NotNdarray σ
  = inl (ValueError "logical_array must be a np.array")
  ∧ (∀ dt n, filter_table self (Ndarray dt n) σ
             = inl (ValueError "logical_array must be a boolean np.array"))
  ∧ (∀ mask, length mask ≠ length df →
             ∃ message : string,
               filter_table self (BoolNdarray mask) σ
               = inl (IndexError message))
  ∧ (∀ mask raw typed,
       length mask = length df →
       frame_of_values (column_names self) (select_mask df.*2 mask)
       = inr raw →
       force_dtype (column_types self) raw = inr typed →
       ∃ (new : table) (σ' : heap) (df' : data_frame),
         filter_table self (BoolNdarray mask) σ = inr (new, σ') ∧
         cls new = cls self ∧
         σ `prefix_of` σ' ∧
         σ' !! _data_df self = Some df ∧
         _data_df new ≠ _data_df self ∧
         σ' !! _data_df new = Some df' ∧
         df'.*2 ≡ₚ typed ∧
         is_sorted_rows df'.*2 = true ∧
         (is_sorted_rows typed = true → df'.*2 = typed) ∧
         (typed = select_mask df.*2 mask →
          is_sorted_rows df.*2 = true →
          df'.*2 = select_mask df.*2 mask))
  ∧ (∀ mask raw e,
       length mask = length df →
       frame_of_values (column_names self) (select_mask df.*2 mask)
       = inr raw →
       force_dtype (column_types self) raw = inl e →
       filter_table self (BoolNdarray mask) σ = inl e).
Proof.
  intros Hcls Hdf.
  destruct (apply_logical_filter_spec frame_of_values force_dtype
              self σ df Hcls Hdf)
    as (Hnot & Hdtype & Hlength & Hmask & Hfails).
  split; [done|]. split; [done|].
  split; [intros mask Hlen; eexists; by apply Hlength|].
  split; [|done].
  intros mask raw typed Hlen Hraw Htyped.
  destruct (Hmask mask raw typed Hlen Hraw Htyped)
    as (new & σ' & df' & Hrun & Hclass & Hprefix & Hne & Hnew & Hperm
        & Hsorted & Hsame).
  exists new, σ', df'.
  split; [done|]. split; [done|]. split; [done|].
  split.
  { destruct Hprefix as [σ'' ->]. by apply lookup_app_l_Some. }
  split; [done|]. split; [done|]. split; [done|]. split; [done|].
  split; [done|].
  intros -> Hs. apply Hsame.
  apply (is_sorted_rows_sublist df.*2); [apply select_mask_sublist | done].
Qed.

End Retyping.

Lemma load_from_dataframe_copies_witness :
  let self := Table BedTable6 [] [] 0 in
  let σ := [[]; range_index Samples.plain_regions] in
  ∃ (t : table) (σ' : heap) (df' : data_frame),
    load_from_dataframe Samples.columns Samples.typed self 1 σ
    = inr (t, σ') ∧
    σ `prefix_of` σ' ∧
    _is_sorted t σ' = inr (true, σ') ∧
    σ' !! _data_df t = Some df' ∧
    df'.*2 ≡ₚ Samples.plain_regions.
Proof.
  destruct (proj1 (load_from_dataframe_copies Samples.columns Samples.typed
                     (Table BedTable6 [] [] 0) 1
                     [[]; range_index Samples.plain_regions]
                     (range_index Samples.plain_regions) eq_refl)
              Samples.plain_regions Samples.plain_regions eq_refl eq_refl)
    as (t & σ' & df' & Hrun & _ & Hprefix & _ & Hnew & Hsorted & _ & Hperm
        & _).
  exists t, σ', df'. repeat split; assumption.
Defined.

Lemma region_subset_twice_witness :
  let self := Table BedTable6 [] [] 0 in
  let rows := [Row "chr1" 3 8 [CStr "c"; CFloat 0; CStr "+"];
               Row "chr1" 7 9 [CStr "b"; CFloat 0; CStr "-"];
               Row "chr2" 5 10 [CStr "a"; CFloat 0; CStr "+"]] in
  ∃ (t1 t2 : table) (σ1 σ2 : heap) (df2 : data_frame),
    region_subset Samples.columns Samples.typed self "chr1" 0 9
      [range_index rows] = inr (t1, σ1) ∧
    region_subset Samples.columns Samples.typed t1 "chr1" 5 20 σ1
    = inr (t2, σ2) ∧
    σ2 !! _data_df t2 = Some df2 ∧
    df2.*2 = [Row "chr1" 7 9 [CStr "b"; CFloat 0; CStr "-"]].
Proof.
  intros self rows.
  destruct (region_subset_twice Samples.columns Samples.typed self
              "chr1" 0 9 5 20 [range_index rows] (range_index rows))
    as (t1 & t2 & σ1 & σ2 & df2 & Hrun1 & Hrun2 & Hdf2 & _ & Hrows).
  - simpl. discriminate.
  - done.
  - reflexivity.
  - reflexivity.
  - reflexivity.
  - reflexivity.
  - reflexivity.
  - reflexivity.
  - exists t1, t2, σ1, σ2, df2. repeat split; assumption.
Defined.

Lemma filter_keeps_masked_rows_witness :
  let self := Table BedTable6 [] [] 0 in
  let df := range_index Samples.plain_regions in
  apply_logical_filter Samples.columns Samples.typed self NotNdarray [df]
  = inl (ValueError "logical_array must be a np.array")
  ∧ (∃ (new : table) (σ' : heap) (df' : data_frame),
       apply_logical_filter Samples.columns Samples.typed self
         (BoolNdarray [true; false; false; true]) [df] = inr (new, σ') ∧
       σ' !! _data_df new = Some df' ∧
       df'.*2 ≡ₚ select_mask Samples.plain_regions
                   [true; false; false; true]).
Proof.
  destruct (filter_keeps_masked_rows Samples.columns Samples.typed
              (Table BedTable6 [] [] 0)
              [range_index Samples.plain_regions]
              (range_index Samples.plain_regions))
    as (Hnot & _ & _ & Hmask & _).
  - by right.
  - reflexivity.
  - split; [exact Hnot|].
    destruct (Hmask [true; false; false; true] _ _ eq_refl eq_refl eq_refl)
      as (new & σ' & df' & Hrun & _ & _ & _ & _ & Hnew & Hperm & _).
    exists new, σ', df'. repeat split; assumption.
Defined.

(** *** Writing *)

Section Writing.
Variable float_str : float → string.

Lemma sentinel_spec (s : string) :
  (s = "nan" ∨ s = "None" → sentinel s = ".")
  ∧ (s ≠ "nan" → s ≠ "None" → sentinel s = s)
  ∧ sentinel s ≠ "nan" ∧ sentinel s ≠ "None".
Proof.
  unfold sentinel.
  destruct (String.eqb_spec s "nan") as [->|Hnan]; [by intuition|].
  destruct (String.eqb_spec s "None") as [->|Hnone]; by intuition.
Qed.

(** [write] hands one line to [to_csv] for each row, in the order of
    the table, with a field for each column.  No field reads [nan] or
    [None]: a cell with one of these texts, a missing value among them,
    is written as [.], also when the text is the name of a chromosome;
    every other cell is written as its text.  The frame of the table and
    the frames that existed are not changed. *)
Theorem write_marks_missing_values (self : table) (opath : string)
    (σ : heap) (df : data_frame) :
  σ !! _data_df self = Some df →
  ∃ (σ' : heap) (lines : list (list string)),
    write float_str self opath σ = inr ((opath, lines), σ') ∧
    σ `prefix_of` σ' ∧
    length lines = length df ∧
    Forall (Forall (fun field => field ≠ "nan" ∧ field ≠ "None")) lines ∧
    (∀ (i : nat) (r : row), df.*2 !! i = Some r →
       ∃ line : list string,
         lines !! i = Some line ∧
         length line = (3 + length (rest r))%nat ∧
         (chrom r = "nan" ∨ chrom r = "None" → line !! 0%nat = Some ".") ∧
         (chrom r ≠ "nan" → chrom r ≠ "None" →
          line !! 0%nat = Some (chrom r)) ∧
         (∀ (j : nat) (c : cell), rest r !! j = Some c →
            (cell_str float_str c = "nan" ∨ cell_str float_str c = "None" →
             line !! (3 + j)%nat = Some ".") ∧
            (cell_str float_str c ≠ "nan" →
             cell_str float_str c ≠ "None" →
             line !! (3 + j)%nat = Some (cell_str float_str c)))).
Proof.
  intros Hdf.
  exists (σ ++ [df]), (line_of float_str <$> df.*2).
  split.
  { unfold write. unfold_M. rewrite Hdf.
    by rewrite list_lookup_middle. }
  split; [by eexists|].
  split; [by rewrite !length_fmap|].
  split.
  { apply Forall_fmap, Forall_forall. intros r _. unfold line_of.
    apply Forall_fmap, Forall_forall. intros s _. simpl.
    split; apply sentinel_spec. }
  intros i r Hr. exists (line_of float_str r).
  split; [by rewrite list_lookup_fmap, Hr|].
  split; [unfold line_of; by rewrite length_fmap, length_app, length_fmap|].
  split; [intros Hc; unfold line_of; simpl; f_equal;
          by apply sentinel_spec|].
  split; [intros Hc1 Hc2; unfold line_of; simpl; f_equal;
          by apply sentinel_spec|].
  intros j c Hc.
  assert (line_of float_str r !! (3 + j)%nat
          = Some (sentinel (cell_str float_str c))) as Hfield.
  { unfold line_of. simpl. by rewrite !list_lookup_fmap, Hc. }
  rewrite Hfield. split.
  - intros Htext. f_equal. by apply sentinel_spec.
  - intros H1 H2. f_equal. by apply sentinel_spec.
Qed.

End Writing.

(** A region on a chromosome called [None], without a name. *)
Lemma write_marks_missing_values_witness :
  let df := range_index [Row "None" 3 8 [CMissing; CFloat 0; CStr "+"]] in
  ∃ (σ' : heap) (lines : list (list string)),
    write (fun _ => "0.0") (Table BedTable6 [] [] 0) "out.bed" [df]
    = inr (("out.bed", lines), σ') ∧
    [df] `prefix_of` σ' ∧
    length lines = 1%nat ∧
    Forall (Forall (fun field => field ≠ "nan" ∧ field ≠ "None")) lines.
Proof.
  destruct (write_marks_missing_values (fun _ => "0.0")
              (Table BedTable6 [] [] 0) "out.bed"
              [range_index [Row "None" 3 8 [CMissing; CFloat 0; CStr "+"]]]
              (range_index [Row "None" 3 8 [CMissing; CFloat 0; CStr "+"]])
              eq_refl) as (σ' & lines & Hrun & Hprefix & Hlen & Hfields & _).
  exists σ', lines. repeat split; assumption.
Defined.

(** *** Copies and columns *)

(** [to_dataframe] returns a frame of its own: it has the rows and
    labels of the table, and a change made to it in place leaves the
    frame of the table as it was. *)
Theorem to_dataframe_is_a_copy (self : table) (σ : heap)
    (df : data_frame) :
  σ !! _data_df self = Some df →
  ∃ (copy : frame_ref) (σ' : heap),
    to_dataframe self σ = inr (copy, σ') ∧
    σ `prefix_of` σ' ∧
    copy ≠ _data_df self ∧
    σ' !! copy = Some df ∧
    (∀ df' : data_frame,
       ∃ σ'' : heap,
         set_frame copy df' σ' = inr ((), σ'') ∧
         σ'' !! copy = Some df' ∧
         σ'' !! _data_df self = Some df).
Proof.
  intros Hdf. pose proof (lookup_lt_Some _ _ _ Hdf) as Hlt.
  exists (length σ), (σ ++ [df]).
  split; [unfold to_dataframe; unfold_M; by rewrite Hdf|].
  split; [by eexists|]. split; [lia|].
  split; [by apply list_lookup_middle|].
  intros df'. exists (<[length σ := df']> (σ ++ [df])).
  split; [done|]. split.
  - apply list_lookup_insert_eq. rewrite length_app. simpl. lia.
  - rewrite list_lookup_insert_ne by lia. by rewrite lookup_app_l.
Qed.

Lemma to_dataframe_is_a_copy_witness :
  let df := range_index Samples.regions in
  ∃ (copy : frame_ref) (σ' : heap),
    to_dataframe (Table BedTable6 [] [] 0) [df] = inr (copy, σ') ∧
    copy ≠ 0%nat ∧
    σ' !! copy = Some df.
Proof.
  destruct (to_dataframe_is_a_copy (Table BedTable6 [] [] 0)
              [range_index Samples.regions] (range_index Samples.regions)
              eq_refl) as (copy & σ' & Hrun & _ & Hne & Hcopy & _).
  exists copy, σ'. repeat split; assumption.
Defined.

(** The three coordinate arrays have an entry for each region of the
    table, and their entries at a position are the coordinates of the
    region that [get_region_by_index] returns for the position.  None
    of the four calls changes a frame. *)
Theorem coordinates_by_position (self : table) (σ : heap)
    (df : data_frame) :
  σ !! _data_df self = Some df →
  ∃ (chroms : list string) (starts ends : list Z),
    get_chrom_names self σ = inr (chroms, σ) ∧
    get_start_locs self σ = inr (starts, σ) ∧
    get_end_locs self σ = inr (ends, σ) ∧
    length chroms = length df ∧
    length starts = length df ∧
    length ends = length df ∧
    (∀ i : nat, (i < length df)%nat →
       ∃ (label : Z) (r : row),
         get_region_by_index self (Z.of_nat i) σ = inr ((label, r), σ) ∧
         chroms !! i = Some (chrom r) ∧
         starts !! i = Some (start r) ∧
         ends !! i = Some (end_ r)).
Proof.
  intros Hdf.
  exists (chrom <$> df.*2), (start <$> df.*2), (end_ <$> df.*2).
  unfold get_chrom_names, get_start_locs, get_end_locs,
    get_region_by_index. unfold_M. rewrite Hdf.
  rewrite !length_fmap. repeat split; try done.
  intros i Hi. destruct (lookup_lt_is_Some_2 df i Hi) as [[label r] Hr].
  exists label, r. rewrite (iloc_position df i _ Hr).
  rewrite !list_lookup_fmap, Hr. done.
Qed.

Lemma coordinates_by_position_witness :
  let σ := [range_index Samples.regions] in
  ∃ chroms : list string,
    get_chrom_names (Table BedTable6 [] [] 0) σ = inr (chroms, σ) ∧
    length chroms = 4%nat.
Proof.
  destruct (coordinates_by_position (Table BedTable6 [] [] 0)
              [range_index Samples.regions] (range_index Samples.regions)
              eq_refl) as (chroms & starts & ends & Hrun & _ & _ & Hlen & _).
  exists chroms. split; assumption.
Defined.

End BedMore.

(** ** More on the region input *)

Module RegionInputMore.
Import Py BedTable CountBwSig Tables BedSpec.

#[local] Arguments load_from_file : simpl never.

Section Parsing.
Context {raw_frame : Type}.
Variable read_csv : string → list string → result raw_frame.
Variable force_dtype : list (string * dtype) → raw_frame → result (list row).
Variable fillna : data_frame → result data_frame.

Abbreviation parse := (parse_region_input read_csv force_dtype fillna).

Lemma load_fails (self : table) (ipath : string) (σ : heap) :
  (∀ raw rows, read_csv ipath (column_names self) = inr raw →
               force_dtype (column_types self) raw = inr rows → False) →
  raises (load_from_file read_csv force_dtype self ipath σ).
Proof.
  intros Hnone. unfold load_from_file, mbind, M_bind, lift.
  destruct (read_csv ipath (column_names self)) as [e|raw] eqn:Hraw.
  - by destruct e.
  - destruct (force_dtype (column_types self) raw) as [e|rows] eqn:Hrows;
      [done|]. by destruct (Hnone raw rows).
Qed.

Lemma parse_bed3_raises (region_file : string) (σ : heap) :
  raises (parse region_file "bed3" σ).
Proof.
  unfold parse_region_input. simpl. unfold mbind, M_bind. simpl.
  set (self := Table BedTable3 [] [] (length σ)).
  destruct (read_csv region_file (column_names self)) as [e|raw] eqn:Hraw.
  - unfold load_from_file, mbind, M_bind, lift. rewrite Hraw.
    by destruct e.
  - destruct (force_dtype (column_types self) raw) as [e|rows] eqn:Hrows.
    + unfold load_from_file, mbind, M_bind, lift. by rewrite Hraw, Hrows.
    + by rewrite (load_from_file_spec read_csv force_dtype self _ _
                    raw rows Hraw Hrows).
Qed.

(** A region file of type [bed6] or [bed6gene] that can be read and
    typed is loaded, and a copy of its frame is handed to [fillna]: the
    regions in the order of [(chrom, start, end)], which is the order
    of the file when that was in order, labelled from 0.  When the fill
    raises, the call fails with its exception; otherwise the call
    returns the frame as the fill left it, each row indexed by the
    [chrom_start_end] of its coordinates, and the frames that existed
    are as they were. *)
Theorem region_input_parsed (region_file file_type : string)
    (extras : list (string * dtype)) (σ : heap)
    (raw : raw_frame) (rows : list row) :
  (file_type = "bed6" ∧ extras = [])
  ∨ (file_type = "bed6gene" ∧ extras = [("gene_name", dt_str)]) →
  read_csv region_file
    (["chrom"; "start"; "end"; "name"; "score"; "strand"] ++ extras.*1)
  = inr raw →
  force_dtype
    ([("chrom", dt_str); ("start", dt_int); ("end", dt_int);
      ("name", dt_str); ("score", dt_float); ("strand", dt_str)] ++ extras)
    raw = inr rows →
  let loaded := normalize (range_index rows) in
  loaded.*1 = Z.of_nat <$> seq 0 (length rows)
  ∧ loaded.*2 ≡ₚ rows
  ∧ is_sorted_rows loaded.*2 = true
  ∧ (is_sorted_rows rows = true → loaded.*2 = rows)
  ∧ (∀ filled : data_frame,
       fillna loaded = inr filled →
       ∃ σ' : heap,
         parse region_file file_type σ
         = inr ((fun lr => (region_id lr.2, lr.2)) <$> filled, σ') ∧
         σ `prefix_of` σ')
  ∧ (∀ e : exception,
       fillna loaded = inl e → parse region_file file_type σ = inl e).
Proof.
  intros Htype Hraw Hrows loaded.
  split; [apply normalize_labels|].
  split; [unfold loaded; by rewrite normalize_rows_perm, range_index_rows|].
  split; [apply normalize_rows_sorted|].
  split.
  { intros Hs. unfold loaded.
    rewrite normalize_sorted; rewrite range_index_rows; done. }
  assert (∃ (self : table) (class_ : M table),
            dict_get REGION_FILE_SUFFIX2CLASS_DICT file_type = Some class_ ∧
            class_ σ = inr (self, σ ++ [[]]) ∧
            String.eqb file_type "bed3" = false ∧
            load_from_file read_csv force_dtype self region_file
              (σ ++ [[]])
            = inr (set_data_df self (length (σ ++ [[]])),
                   (σ ++ [[]]) ++ [loaded]))
    as (self & class_ & Hclass & Hrun & Hnot3 & Hload).
  { destruct Htype as [[-> ->]|[-> ->]].
    - exists (Table BedTable6 [] [] (length σ)),
        (construct BedTable6 None None).
      split; [done|]. split; [done|]. split; [done|].
      by apply (load_from_file_spec read_csv force_dtype
                  (Table BedTable6 [] [] (length σ)) _ _ raw rows).
    - exists (Table BedTable6Plus ["gene_name"] [dt_str] (length σ)),
        BedTable6Gene.
      split; [done|]. split; [done|]. split; [done|].
      by apply (load_from_file_spec read_csv force_dtype
                  (Table BedTable6Plus ["gene_name"] [dt_str] (length σ))
                  _ _ raw rows). }
  assert (∀ outcome : result data_frame,
            fillna loaded = outcome →
            parse region_file file_type σ
            = match outcome with
              | inl e => inl e
              | inr filled =>
                  inr ((fun lr => (region_id lr.2, lr.2)) <$> filled,
                       <[length ((σ ++ [[]]) ++ [loaded]) := filled]>
                         (((σ ++ [[]]) ++ [loaded]) ++ [loaded]))
              end) as Hparse.
  { intros outcome Hfill. unfold parse_region_input. rewrite Hclass.
    unfold mbind at 1. unfold M_bind at 1. rewrite Hrun.
    unfold mbind at 1. unfold M_bind at 1. rewrite Hload.
    rewrite Hnot3. unfold to_dataframe. unfold_M.
    change (_data_df (set_data_df self (length (σ ++ [[]]))))
      with (length (σ ++ [[]])).
    rewrite (list_lookup_middle (σ ++ [[]]) [] loaded) by done.
    rewrite (list_lookup_middle ((σ ++ [[]]) ++ [loaded]) [] loaded)
      by done.
    rewrite Hfill. destruct outcome as [e|filled]; [done|].
    by rewrite list_lookup_insert_eq
      by (rewrite !length_app; simpl; lia). }
  split.
  - intros filled Hfill. eexists. split; [by apply (Hparse (inr filled))|].
    exists ([[]] ++ [loaded] ++ [filled]).
    rewrite <- !app_assoc. simpl.
    replace (length (σ ++ [] :: [loaded])) with (length σ + 2)%nat
      by (rewrite length_app; simpl; lia).
    rewrite insert_app_r_alt by lia.
    by replace (length σ + 2 - length σ)%nat with 2%nat by lia.
  - intros e Hfill. by apply (Hparse (inl e)).
Qed.

(** Only the file types [bed6] and [bed6gene] can be parsed: for every
    other file type, [bed3] among them, [parse_region_input] raises. *)
Theorem region_input_file_types (region_file file_type : string)
    (σ σ' : heap) (region_df : list (string * row)) :
  parse region_file file_type σ = inr (region_df, σ') →
  file_type = "bed6" ∨ file_type = "bed6gene".
Proof.
  intros Hrun.
  destruct (String.eqb_spec file_type "bed3") as [->|H3].
  { pose proof (parse_bed3_raises region_file σ) as Hraises.
    by rewrite Hrun in Hraises. }
  destruct (String.eqb_spec file_type "bed6") as [->|H6]; [by left|].
  destruct (String.eqb_spec file_type "bed6gene") as [->|Hg]; [by right|].
  exfalso. unfold parse_region_input in Hrun. simpl in Hrun.
  rewrite (proj2 (String.eqb_neq _ _) H3) in Hrun.
  rewrite (proj2 (String.eqb_neq _ _) H6) in Hrun.
  rewrite (proj2 (String.eqb_neq _ _) Hg) in Hrun.
  discriminate Hrun.
Qed.

End Parsing.

Lemma region_input_parsed_witness :
  ∃ σ' : heap,
    parse_region_input Samples.read_plain_regions Samples.typed
      Samples.filled "regions.bed" "bed6" []
    = inr ([("chr1_3_8", Row "chr1" 3 8 [CStr "c"; CFloat 0; CStr "+"]);
            ("chr1_3_8", Row "chr1" 3 8 [CStr "d"; CFloat 0; CStr "-"]);
            ("chr1_7_9", Row "chr1" 7 9 [CStr "b"; CFloat 0; CStr "-"]);
            ("chr2_5_10", Row "chr2" 5 10 [CStr "a"; CFloat 0; CStr "+"])],
           σ').
Proof.
  destruct (region_input_parsed Samples.read_plain_regions Samples.typed
              Samples.filled "regions.bed" "bed6" [] []
              Samples.plain_regions Samples.plain_regions
              (or_introl (conj eq_refl eq_refl)) eq_refl eq_refl)
    as (_ & _ & _ & _ & Hreturns & _).
  destruct (Hreturns _ eq_refl) as (σ' & Hrun & _).
  exists σ'. exact Hrun.
Defined.

Lemma region_input_file_types_witness :
  ∃ (region_df : list (string * row)) (σ' : heap),
    parse_region_input Samples.read_regions Samples.typed Samples.filled
      "regions.bed" "bed6" [] = inr (region_df, σ')
    ∧ ("bed6" = "bed6" ∨ "bed6" = "bed6gene").
Proof.
  assert (∃ (region_df : list (string * row)) (σ' : heap),
            parse_region_input Samples.read_regions Samples.typed
              Samples.filled "regions.bed" "bed6" [] = inr (region_df, σ'))
    as (region_df & σ' & Hrun).
  { eexists _, _. vm_compute. reflexivity. }
  exists region_df, σ'. split; [exact Hrun|].
  exact (region_input_file_types Samples.read_regions Samples.typed
           Samples.filled "regions.bed" "bed6" [] σ' region_df Hrun).
Defined.

End RegionInputMore.

(** ** More on the counts *)

Module CountMore.
Import Py CountBwSig CountArgs Regions Checked.

Ltac unfold_IO :=
  unfold mbind, mret, IO_bind, IO_ret, io_raise, os_path_exists,
    os_makedirs.

Ltac unfold_Q :=
  unfold count_single_region, call_values, fail, mbind, mret, Q_bind, Q_ret.

Section Checking.
Context {fs : Type}.
Variable path_exists : string → fs → bool.
Variable makedirs : string → fs → fs * result ().

Abbreviation check := (args_check_and_preprocessing path_exists makedirs).

Lemma check_inversion (args args' : namespace) (w w' : fs) :
  check args w = (w', inr args') →
  args' = (if single_bw args then set_bw_mns args (Some (bw_pls args))
           else args)
  ∧ checked args'
  ∧ path_exists (region_file_path args) w = true
  ∧ (if path_exists (opath args) w then w' = w
     else makedirs (opath args) w = (w', inr ())).
Proof.
  unfold args_check_and_preprocessing. unfold_IO.
  destruct args as [job samples pls mns single file type out ignore
                    lp rp min_len method output].
  simpl. intros Hrun.
  destruct single, ignore; simpl in Hrun; try discriminate Hrun.
  all: repeat (match type of Hrun with
               | context [bool_decide ?P] => destruct (bool_decide_reflect P)
               | context [path_exists ?p ?w] =>
                   destruct (path_exists p w) eqn:?
               | context [makedirs ?p ?w] =>
                   destruct (makedirs p w) as [? [?|[]]] eqn:?
               | context [match ?o with Some _ => _ | None => _ end] =>
                   destruct o
               end; simpl in Hrun; try discriminate Hrun).
  all: injection Hrun as <- <-.
  all: split; [done|]; split; [|done].
  all: constructor; simpl; try done; try lia.
  all: eexists; split; [done|]; lia.
Qed.

(** What the check leaves: the arguments, with the minus tracks set to
    the plus tracks in single-track mode, satisfy what the script relies
    on; the region file exists; and the only change to the file system
    is the output directory, made when it did not exist. *)
Theorem checked_arguments (args args' : namespace) (w w' : fs) :
  check args w = (w', inr args') →
  args' = (if single_bw args then set_bw_mns args (Some (bw_pls args))
           else args)
  ∧ checked args'
  ∧ path_exists (region_file_path args) w = true
  ∧ (if path_exists (opath args) w then w' = w
     else makedirs (opath args) w = (w', inr ())).
Proof. apply check_inversion. Qed.

(** The output directory is made before the file type, the output
    type, the minimal length and the padding method are looked at: a
    call that is refused for one of them has made the directory. *)
Theorem directory_made_before_refusal (args : namespace) (w w' : fs) :
  (single_bw args = true → ignore_strandness args = true) →
  length (sample_names args) = length (bw_pls args) →
  (single_bw args = false →
   ∃ mns, bw_mns args = Some mns ∧
          length (sample_names args) = length mns) →
  path_exists (region_file_path args) w = true →
  path_exists (opath args) w = false →
  makedirs (opath args) w = (w', inr ()) →
  ¬ (region_file_type args ∈ ["bed3"; "bed6"; "bed6gene"]
     ∧ output_type args ∈ ["raw_count"; "RPK"]
     ∧ 1 ≤ min_len_after_padding args
     ∧ method_resolving_invalid_padding args ∈ ["raise"; "fallback"]) →
  ∃ message : string, check args w = (w', inl (Exception message)).
Proof.
  unfold args_check_and_preprocessing. unfold_IO.
  destruct args as [job samples pls mns single file type out ignore
                    lp rp min_len method output].
  simpl. intros Hignore Hpls Hmns Hfile Hout Hmade Hbad.
  assert (∃ mns', (if single then Some pls else mns) = Some mns'
                  ∧ length samples = length mns') as (mns' & Hmns' & Hlen).
  { destruct single; [by exists pls|]. by apply Hmns. }
  destruct single; [rewrite Hignore by done|]; simpl.
  all: simpl in Hmns'; simplify_eq.
  all: rewrite (bool_decide_false (_ ≠ _)) by lia.
  all: try rewrite (bool_decide_false (_ ≠ _)) by lia.
  all: simpl; rewrite Hfile; simpl; rewrite Hout; simpl; rewrite Hmade.
  all: repeat (case_bool_decide; simpl; [|by eexists]).
  all: exfalso; apply Hbad; repeat split; try done; lia.
Qed.

(** Conversely, arguments that satisfy what the script relies on, once
    the minus tracks are set in single-track mode, are accepted when the
    region file exists and the output directory exists or can be
    made. *)
Theorem valid_arguments_are_accepted (args : namespace) (w w' : fs) :
  checked (if single_bw args then set_bw_mns args (Some (bw_pls args))
           else args) →
  path_exists (region_file_path args) w = true →
  (if path_exists (opath args) w then w' = w
   else makedirs (opath args) w = (w', inr ())) →
  check args w
  = (w', inr (if single_bw args then set_bw_mns args (Some (bw_pls args))
              else args)).
Proof.
  unfold args_check_and_preprocessing. unfold_IO.
  destruct args as [job samples pls mns single file type out ignore
                    lp rp min_len method output].
  simpl. intros Hchecked Hfile Hout.
  destruct single; destruct Hchecked
    as [Hsingle (mns' & Hmns & Hlen1 & Hlen2) Htype Houtput Hmin Hmethod];
    simpl in *.
  - destruct (Hsingle eq_refl) as [-> _]. simpl. simplify_eq.
    rewrite (bool_decide_false (_ ≠ _)) by lia.
    try rewrite (bool_decide_false (_ ≠ _)) by lia. simpl.
    rewrite Hfile. simpl.
    destruct (path_exists out w); simpl; [subst w'|rewrite Hout].
    all: rewrite !bool_decide_true by (done || lia); done.
  - subst mns. rewrite (bool_decide_false (_ ≠ _)) by lia.
    rewrite (bool_decide_false (_ ≠ _)) by lia. simpl.
    rewrite Hfile. simpl.
    destruct (path_exists out w); simpl; [subst w'|rewrite Hout].
    all: rewrite !bool_decide_true by (done || lia); done.
Qed.

End Checking.

Lemma valid_arguments_are_accepted_witness :
  args_check_and_preprocessing listed make_listed sample_args
    ["out"; "regions.bed"]
  = (["out"; "regions.bed"], inr sample_args).
Proof.
  apply (valid_arguments_are_accepted listed make_listed sample_args
           ["out"; "regions.bed"] ["out"; "regions.bed"]).
  - split; simpl; try done; try lia.
    + by exists ["s1.mn.bw"].
    + apply list_elem_of_further, list_elem_of_here.
    + apply list_elem_of_here.
    + apply list_elem_of_here.
  - reflexivity.
  - reflexivity.
Defined.

Lemma directory_made_before_refusal_witness :
  ∃ message : string,
    args_check_and_preprocessing listed make_listed
      (Namespace "job" ["s1"] ["s1.pl.bw"] (Some ["s1.mn.bw"]) false
         "regions.bed" "bed6" "out" false 0 0 50 "raise" "rpk")
      ["regions.bed"]
    = (["out"; "regions.bed"], inl (Exception message)).
Proof.
  apply (directory_made_before_refusal listed make_listed
           (Namespace "job" ["s1"] ["s1.pl.bw"] (Some ["s1.mn.bw"]) false
              "regions.bed" "bed6" "out" false 0 0 50 "raise" "rpk")
           ["regions.bed"] ["out"; "regions.bed"]).
  - discriminate.
  - reflexivity.
  - intros _. by exists ["s1.mn.bw"].
  - reflexivity.
  - reflexivity.
  - reflexivity.
  - intros (_ & Houtput & _). vm_compute in Houtput.
    by repeat (apply elem_of_cons in Houtput as [Houtput|Houtput];
               [discriminate Houtput|]; try apply elem_of_nil in Houtput).
Defined.

Lemma checked_arguments_witness :
  checked sample_args
  ∧ args_check_and_preprocessing listed make_listed sample_args
      ["regions.bed"]
    = (["out"; "regions.bed"], inr sample_args).
Proof.
  assert (args_check_and_preprocessing listed make_listed sample_args
            ["regions.bed"]
          = (["out"; "regions.bed"], inr sample_args)) as Hrun
    by reflexivity.
  split; [|exact Hrun].
  exact (proj1 (proj2 (checked_arguments listed make_listed sample_args
                         sample_args ["regions.bed"] ["out"; "regions.bed"]
                         Hrun))).
Defined.

(** *** Calls of [count_single_region] *)

Section Calls.
Variable np_nan_to_num : list float → list float.
Variable np_sum : list float → float.

Abbreviation count := (count_single_region np_nan_to_num np_sum).

(** In single-track mode the minus reader is never queried.  A strand
    other than [.] is refused, after the plus reader has been queried;
    for the strand [.] and a padding that is valid, the count is the sum
    over the plus reader, to which 0 is added. *)
Theorem single_track_mode (bw_pl bw_mn : bigwig) (chrom : string)
    (start end_ : Z) (strand output_type : string)
    (l_pad r_pad min_len : Z) (method : string) :
  let r := count bw_pl bw_mn chrom start end_ strand true output_type
             l_pad r_pad min_len method in
  Forall (fun q => q_reader q = bw_pl_reader) r.1
  ∧ (strand ≠ "." → raises r.2)
  ∧ (∀ pl_values : list float,
       strand = "." →
       ¬ padding_invalid start end_ l_pad r_pad min_len →
       values bw_pl chrom (start - l_pad) (end_ + r_pad) = inr pl_values →
       output_type = "raw_count" →
       r.2 = inr (np_sum (np_nan_to_num pl_values) + 0)%float).
Proof.
  unfold padding_invalid. unfold_Q. split; [|split].
  - repeat (case_match; simpl in *; simplify_eq);
      repeat constructor.
  - intros Hstrand.
    assert (String.eqb strand "." = false) as ->
      by (by apply String.eqb_neq).
    repeat (case_match; simpl in *; simplify_eq); done.
  - intros pl_values -> Hval Hpl ->.
    rewrite bool_decide_false by lia. simpl. by rewrite Hpl.
Qed.

Context {fs : Type}.
Variable path_exists : string → fs → bool.
Variable makedirs : string → fs → fs * result ().

(** The call [main] makes for a region, with arguments that passed the
    check, with the plus reader in the place of the minus reader in
    single-track mode, and with a strand that is one of [+], [-] and
    [.], and is [.] when the strand is to be ignored: the call returns
    a count, or the padding is refused under the method [raise], or a
    reader raised on a query and its exception is passed on. *)
Theorem checked_call_of_count (args args' : namespace) (w w' : fs)
    (bw_pl bw_mn : bigwig) (chrom : string) (start end_ : Z)
    (strand : string) :
  args_check_and_preprocessing path_exists makedirs args w
  = (w', inr args') →
  strand ∈ ["+"; "-"; "."] →
  (ignore_strandness args' = true → strand = ".") →
  let bw_mn' := if single_bw args' then bw_pl else bw_mn in
  let r := count bw_pl bw_mn' chrom start end_ strand (single_bw args')
             (output_type args') (l_pad args') (r_pad args')
             (min_len_after_padding args')
             (method_resolving_invalid_padding args') in
  (∃ c : float, r.2 = inr c)
  ∨ (padding_invalid start end_ (l_pad args') (r_pad args')
       (min_len_after_padding args')
     ∧ method_resolving_invalid_padding args' = "raise"
     ∧ r = ([], inl (Exception "Padding is larger than the region")))
  ∨ (∃ (q : query) (e : exception),
       q ∈ r.1 ∧
       values (reader_of bw_pl bw_mn' q) (q_chrom q) (q_start q) (q_end q)
       = inl e ∧
       r.2 = inl e).
Proof.
  intros Hrun Hstrand Hignore.
  destruct (check_inversion path_exists makedirs args args' w w' Hrun)
    as (_ & [Hsingle _ _ Houtput _ Hmethod] & _).
  destruct args' as [job samples pls mns single file type out ignore
                     lp rp min_len method output].
  simpl in *. unfold padding_invalid. unfold_Q.
  assert (single = true → strand = ".") as Hdot
    by (intros Hs; apply Hignore, Hsingle, Hs).
  case_bool_decide as Htest.
  - repeat (apply elem_of_cons in Hmethod as [->|Hmethod]);
      [| |by apply elem_of_nil in Hmethod].
    + right. left. simpl. split; [lia|by split].
    + simpl.
      destruct (values bw_pl chrom start end_) as [e|pl_values] eqn:Hpl.
      { right. right. exists (Query bw_pl_reader chrom start end_), e.
        simpl. split; [apply list_elem_of_here|done]. }
      simpl. destruct single.
      * rewrite (Hdot eq_refl). simpl.
        repeat (apply elem_of_cons in Houtput as [->|Houtput]);
          [| |by apply elem_of_nil in Houtput]; simpl; left; by eexists.
      * simpl.
        destruct (values bw_mn chrom start end_) as [e|mn_values] eqn:Hmn.
        { right. right. exists (Query bw_mn_reader chrom start end_), e.
          simpl. split; [apply list_elem_of_further, list_elem_of_here|done]. }
        simpl. left.
        repeat (apply elem_of_cons in Hstrand as [->|Hstrand]);
          [| | |by apply elem_of_nil in Hstrand];
          repeat (apply elem_of_cons in Houtput as [->|Houtput]);
          try (by apply elem_of_nil in Houtput); simpl; by eexists.
  - simpl.
    destruct (values bw_pl chrom (start - lp) (end_ + rp))
      as [e|pl_values] eqn:Hpl.
    { right. right. exists (Query bw_pl_reader chrom (start - lp) (end_ + rp)), e.
      simpl. split; [apply list_elem_of_here|done]. }
    simpl. destruct single.
    + rewrite (Hdot eq_refl). simpl.
      repeat (apply elem_of_cons in Houtput as [->|Houtput]);
        [| |by apply elem_of_nil in Houtput]; simpl; left; by eexists.
    + simpl.
      destruct (values bw_mn chrom (start - lp) (end_ + rp))
        as [e|mn_values] eqn:Hmn.
      { right. right.
        exists (Query bw_mn_reader chrom (start - lp) (end_ + rp)), e.
        simpl. split; [apply list_elem_of_further, list_elem_of_here|done]. }
      simpl. left.
      repeat (apply elem_of_cons in Hstrand as [->|Hstrand]);
        [| | |by apply elem_of_nil in Hstrand];
        repeat (apply elem_of_cons in Houtput as [->|Houtput]);
        try (by apply elem_of_nil in Houtput); simpl; by eexists.
Qed.

End Calls.

Lemma single_track_mode_witness :
  (count_single_region nan_to_num sum_from_left
     (constant_track 2) (constant_track 2)
     "chr1" 0 10 "." true "raw_count" 0 0 1 "raise").2
  = inr 20%float.
Proof.
  refine (proj2 (proj2
    (single_track_mode nan_to_num sum_from_left
       (constant_track 2) (constant_track 2)
       "chr1" 0 10 "." "raw_count" 0 0 1 "raise"))
    (replicate 10 2%float) eq_refl _ eq_refl eq_refl).
  unfold padding_invalid. lia.
Defined.

Lemma checked_call_of_count_witness :
  ∃ c : float,
    (count_single_region nan_to_num sum_from_left
       (constant_track 1) (constant_track (-1))
       "chr1" 1000 1060 "+" false "raw_count" 0 0 50 "raise").2
    = inr c.
Proof.
  destruct (checked_call_of_count nan_to_num sum_from_left
              listed make_listed sample_args sample_args
              ["regions.bed"] ["out"; "regions.bed"]
              (constant_track 1) (constant_track (-1))
              "chr1" 1000 1060 "+" eq_refl)
    as [[c Hc]|[(Hinvalid & _)|(q & e & _ & _ & He)]].
  - apply list_elem_of_here.
  - discriminate.
  - exists c. exact Hc.
  - exfalso. unfold padding_invalid in Hinvalid. simpl in Hinvalid. lia.
  - exfalso. vm_compute in He. discriminate He.
Defined.

End CountMore.
